(** * TimelineThinker: the chat client and the query pipeline contract

    A shallow embedding of the React client of TimelineThinker
    (services/api.js, App.jsx, Chat/InputBox.jsx, Chat/ChatInterface.jsx,
    Upload/UploadPanel.jsx) together with a model of the parts of the
    answering pipeline (Planner, Synthesizer) that the client talks to.

    Conventions.
    - A JavaScript string is a [string]; each [ascii] stands for one UTF-16
      code unit in the range 0..255 (the Latin-1 part of the BMP).
    - A JavaScript number used as an identifier is a [Z]; [null] is [None].
    - A JavaScript object used as a request body is a [gmap string value].
    - A component is a state record plus one function per handler; calls to
      callbacks and to the network are recorded in an effect trace, and the
      answer of the network is an argument of the handler.
    - [new Date()] is an explicit clock argument. *)

From Stdlib Require Import ZArith Ascii String List Bool Lia Sorted.
From stdpp Require Import base option list strings gmap.

Local Open Scope string_scope.
Local Open Scope Z_scope.
Local Open Scope list_scope.

(** ** JavaScript primitives used by the client *)

Module Js.

(** [ToBoolean] on a number: only 0 (and NaN, which no id is) is falsy. *)
Definition truthy_num (n : Z) : bool := negb (n =? 0).

(** [ToBoolean] on a value that is [null] or a number. *)
Definition truthy_id (o : option Z) : bool :=
  match o with
  | None => false
  | Some n => truthy_num n
  end.

(** [ToBoolean] on a string: only the empty string is falsy. *)
Definition truthy_str (s : string) : bool :=
  match s with
  | EmptyString => false
  | String _ _ => true
  end.

(** [ToBoolean] on a value that is [undefined]/[null] or an array: every
    array, the empty one too, is truthy. *)
Definition truthy_array {A} (o : option (list A)) : bool :=
  match o with
  | None => false
  | Some _ => true
  end.

(** [a === b] where [a] is [null] or a number and [b] is a number. *)
Definition strict_eq_id (a : option Z) (b : Z) : bool :=
  match a with
  | None => false
  | Some n => n =? b
  end.

Definition code (c : ascii) : Z := Z.of_N (N_of_ascii c).

(** ECMAScript WhiteSpace and LineTerminator code units below 256:
    TAB, LF, VT, FF, CR, SP and NBSP. *)
Definition is_white_space (c : ascii) : bool :=
  let n := code c in
  ((9 <=? n) && (n <=? 13)) || (n =? 32) || (n =? 160).

Fixpoint trimStart (s : string) : string :=
  match s with
  | EmptyString => EmptyString
  | String c s' => if is_white_space c then trimStart s' else s
  end.

Fixpoint rev (s : string) : string :=
  match s with
  | EmptyString => EmptyString
  | String c s' => rev s' +:+ String c EmptyString
  end.

Definition trimEnd (s : string) : string := rev (trimStart (rev s)).

(** [String.prototype.trim]. *)
Definition trim (s : string) : string := trimEnd (trimStart s).

(** Lower-casing of one code unit below 256: A-Z, and the Latin-1 capitals
    0xC0-0xDE except the multiplication sign 0xD7, move up by 32. *)
Definition lower_char (c : ascii) : ascii :=
  let n := code c in
  if ((65 <=? n) && (n <=? 90)) ||
     ((192 <=? n) && (n <=? 222) && negb (n =? 215))
  then ascii_of_N (Z.to_N (n + 32))
  else c.

(** [String.prototype.toLowerCase]. *)
Fixpoint toLowerCase (s : string) : string :=
  match s with
  | EmptyString => EmptyString
  | String c s' => String (lower_char c) (toLowerCase s')
  end.

(** [s.split(sep)] for a one-character separator: never an empty array,
    [''.split('.')] is [['']]. *)
Fixpoint split (sep : ascii) (s : string) : list string :=
  match s with
  | EmptyString => [EmptyString]
  | String c s' =>
      if Ascii.eqb c sep then EmptyString :: split sep s'
      else match split sep s' with
           | seg :: rest => String c seg :: rest
           | [] => [String c EmptyString]
           end
  end.

(** [arr.pop()]: the last element, [undefined] on an empty array. *)
Definition pop {A} (l : list A) : option A := last l.

(** [arr.includes(x)] on an array of strings. *)
Definition includes (l : list string) (x : string) : bool :=
  existsb (String.eqb x) l.

End Js.

(** ** services/api.js *)

Module Api.

(** The JSON values that occur in a request body. *)
Inductive value : Type :=
| VNum (n : Z)
| VStr (s : string).

Record Request : Type := mkRequest {
  req_path : string;
  req_body : gmap string value
}.

(** What an awaited call comes back with: the promise resolves with
    [response.data], or it rejects and the [await] throws. *)
Inductive Outcome (R E : Type) : Type :=
| Resolved (r : R)
| Rejected (e : E).
Arguments Resolved {R E} r.
Arguments Rejected {R E} e.

(** The body built by [query(question, userId, sourceId)]:
    [{user_id, question}], and [source_id] only under [if (sourceId)]. *)
Definition query_payload (question : string) (userId : Z)
    (sourceId : option Z) : gmap string value :=
  let payload : gmap string value :=
    <["question" := VStr question]> (<["user_id" := VNum userId]> ∅) in
  match sourceId with
  | Some sid =>
      if Js.truthy_num sid then <["source_id" := VNum sid]> payload
      else payload
  | None => payload
  end.

(** [query]: the request handed to [api.post]. *)
Definition query (question : string) (userId : Z) (sourceId : option Z)
    : Request :=
  mkRequest "/query" (query_payload question userId sourceId).

End Api.

(** ** components/Chat/InputBox.jsx *)

Module InputBox.

(** The component's only state is the text of the input field; [disabled]
    is a prop. *)
Record State : Type := mkState { input : string }.

(** The events the form reacts to: the form's submit, and a key press in the
    field with the key's name and the state of Shift. *)
Inductive Event : Type :=
| Submit
| KeyPress (key : string) (shiftKey : bool).

(** [handleSubmit]: the new state and the arguments of the calls to
    [onSend], in order. *)
Definition handleSubmit (disabled : bool) (st : State)
    : State * list string :=
  if Js.truthy_str (Js.trim (input st)) && negb disabled
  then (mkState EmptyString, [Js.trim (input st)])
  else (st, []).

(** [handleKeyPress]: a plain Enter is a submit, any other key press is left
    to the browser. *)
Definition handleKeyPress (disabled : bool) (key : string) (shiftKey : bool)
    (st : State) : State * list string :=
  if String.eqb key "Enter" && negb shiftKey
  then handleSubmit disabled st
  else (st, []).

Definition handle (disabled : bool) (ev : Event) (st : State)
    : State * list string :=
  match ev with
  | Submit => handleSubmit disabled st
  | KeyPress key shiftKey => handleKeyPress disabled key shiftKey st
  end.

(** A submission is the form's submit event or a plain Enter. *)
Definition is_submission (ev : Event) : bool :=
  match ev with
  | Submit => true
  | KeyPress key shiftKey => String.eqb key "Enter" && negb shiftKey
  end.

End InputBox.

(** ** components/Chat/ChatInterface.jsx *)

Module ChatInterface.

Record Source : Type := mkSource {
  id : Z;
  title : string;
  source_type : string
}.

Inductive Role : Type := user | assistant.

Record Metadata : Type := mkMetadata {
  sourceTitle : string;
  sourceType : string;
  sourceId : Z
}.

Record Message : Type := mkMessage {
  role : Role;
  content : string;
  timestamp : Z;
  context : option string;
  metadata : option Metadata;
  isError : bool
}.

(** The fields of [response.data] the component reads; [dates_used] may be
    missing. *)
Record QueryResponse : Type := mkQueryResponse {
  answer : string;
  dates_used : option (list string)
}.

Record Props : Type := mkProps {
  onDatesUsed : bool;            (* is the callback passed? *)
  selectedSourceId : option Z;
  selectedSource : option Source;
  onInteractionComplete : bool   (* is the callback passed? *)
}.

Record State : Type := mkState {
  messages : list Message;
  isLoading : bool
}.

(** What the handler does to the outside, in order. [E] is the type of the
    value a rejected request throws. *)
Inductive Effect (E : Type) : Type :=
| ApiPost (r : Api.Request)
| ConsoleError (label : string) (e : E)
| CallOnDatesUsed (dates : list string)
| CallOnInteractionComplete.
Arguments ApiPost {E} r.
Arguments ConsoleError {E} label e.
Arguments CallOnDatesUsed {E} dates.
Arguments CallOnInteractionComplete {E}.

Definition error_text : string :=
  "Sorry, I encountered an error while processing your question. Please try again.".

Definition push (m : Message) (st : State) : State :=
  mkState (messages st ++ [m]) (isLoading st).

Definition setIsLoading (b : bool) (st : State) : State :=
  mkState (messages st) b.

(** [handleSendMessage] up to the [await]: the user's message is appended,
    the spinner is switched on and the request is made. *)
Definition send_begin (p : Props) (now : Z) (userMessage : string)
    (st : State) : State * Api.Request :=
  let userMsg :=
    mkMessage user userMessage now
      (match selectedSource p with
       | Some s => Some ("Source: " +:+ title s)
       | None => None
       end)
      None false in
  (setIsLoading true (push userMsg st),
   Api.query userMessage 1 (selectedSourceId p)).

(** [handleSendMessage] after the [await]: the [try] body on a resolved
    request, the [catch] body on a rejected one, then [finally]. *)
Definition send_settle {E} (p : Props) (now : Z)
    (o : Api.Outcome QueryResponse E) (st : State)
    : State * list (Effect E) :=
  match o with
  | Api.Resolved response =>
      let assistantMsg :=
        mkMessage assistant (answer response) now None
          (match selectedSource p with
           | Some s => Some (mkMetadata (title s) (source_type s) (id s))
           | None => None
           end)
          false in
      let dates : list (Effect E) :=
        match dates_used response with
        | Some ds => if onDatesUsed p then [CallOnDatesUsed ds] else []
        | None => []
        end in
      let complete : list (Effect E) :=
        if onInteractionComplete p then [CallOnInteractionComplete] else [] in
      (setIsLoading false (push assistantMsg st), dates ++ complete)
  | Api.Rejected error =>
      let errorMsg :=
        mkMessage assistant error_text now None None true in
      (setIsLoading false (push errorMsg st),
       [ConsoleError "Query failed:" error])
  end.

(** The whole of [handleSendMessage], with the network's answer [api] to the
    request it makes and the two readings [t_sent], [t_back] of the clock. *)
Definition handleSendMessage {E} (p : Props) (t_sent t_back : Z)
    (api : Api.Request -> Api.Outcome QueryResponse E)
    (userMessage : string) (st : State) : State * list (Effect E) :=
  let '(st1, req) := send_begin p t_sent userMessage st in
  let '(st2, effs) := send_settle p t_back (api req) st1 in
  (st2, ApiPost req :: effs).

(** The requests found in a trace. *)
Fixpoint requests {E} (effs : list (Effect E)) : list Api.Request :=
  match effs with
  | [] => []
  | ApiPost r :: rest => r :: requests rest
  | _ :: rest => requests rest
  end.

End ChatInterface.

(** ** App.jsx *)

Module App.

Import ChatInterface.

(** The two state variables the focus logic reads and writes. The other
    ones ([timelines], [session], ...) never meet them. *)
Record State : Type := mkState {
  sources : list Source;
  selectedSourceId : option Z
}.

(** [useState([])] and [useState(null)]. *)
Definition init : State := mkState [] None.

Definition setSelectedSourceId (x : option Z) (st : State) : State :=
  mkState (sources st) x.

Definition setSources (l : list Source) (st : State) : State :=
  mkState l (selectedSourceId st).

(** [sources.some((source) => source.id === sel)]. *)
Definition some_source (l : list Source) (sel : option Z) : bool :=
  existsb (fun source => Js.strict_eq_id sel (id source)) l.

(** [sources.find((source) => source.id === sel) || null]. *)
Definition find_source (l : list Source) (sel : option Z) : option Source :=
  List.find (fun source => Js.strict_eq_id sel (id source)) l.

(** The body of the effect on [[sources, selectedSourceId]]. *)
Definition focus_effect (st : State) : State :=
  if Js.truthy_id (selectedSourceId st)
     && negb (some_source (sources st) (selectedSourceId st))
  then setSelectedSourceId None st
  else st.

(** What can happen to the two variables. A handler that awaits a request
    and then tests [selectedSourceId] reads the value its closure was
    created with, [seen], which need not be the current one. The reloads
    a handler starts ([loadSources]) arrive later, as events of their own. *)
Inductive Event : Type :=
| Select (x : option Z)
    (* [setSelectedSourceId] as [onSelect] / [onSelectSource] *)
| SourcesLoaded (l : option (list Source))
    (* [loadSources]: [setSources(response.sources || [])] *)
| SourcesFailed
    (* [loadSources]: the request is rejected *)
| SessionSourceRemove (sourceId : Z) (seen : option Z) (ok : bool)
    (* [handleSessionSourceRemove] *)
| ClearSession (confirmed ok : bool)
    (* [handleClearSession] *)
| SourceDelete (sourceId : Z) (seen : option Z) (confirmed ok : bool).
    (* [handleSourceDelete] *)

(** The state updates of each handler. *)
Definition apply_event (ev : Event) (st : State) : State :=
  match ev with
  | Select x => setSelectedSourceId x st
  | SourcesLoaded None => setSources [] st
  | SourcesLoaded (Some l) => setSources l st
  | SourcesFailed => st
  | SessionSourceRemove sourceId seen ok =>
      if ok && Js.strict_eq_id seen sourceId
      then setSelectedSourceId None st else st
  | ClearSession confirmed ok =>
      if confirmed && ok then setSelectedSourceId None st else st
  | SourceDelete sourceId seen confirmed ok =>
      if confirmed && ok && Js.strict_eq_id seen sourceId
      then setSelectedSourceId None st else st
  end.

(** One update as React commits it: the handler's updates, then the effect
    (which runs again after its own update and then changes nothing). *)
Definition step (st : State) (ev : Event) : State :=
  focus_effect (apply_event ev st).

Definition run (evs : list Event) : State := fold_left step evs init.

(** The states the app settles in: those it is in once the effect has run
    after an update. The render React commits between an update and the
    effect is not one of them. *)
Definition reachable (st : State) : Prop := exists evs, run evs = st.

(** What the effect establishes: a truthy selection names a source of the
    loaded list. *)
Definition focus_ok (st : State) : Prop :=
  Js.truthy_id (selectedSourceId st) = true ->
  some_source (sources st) (selectedSourceId st) = true.

(** The props [App] hands to [ChatInterface]. *)
Definition chat_props (st : State) : Props :=
  mkProps true (selectedSourceId st)
    (find_source (sources st) (selectedSourceId st)) true.

End App.

(** ** components/Upload/UploadPanel.jsx *)

Module UploadPanel.

Record File : Type := mkFile { name : string }.

(** The fields of an ingestion's [response.data] the panel reads. *)
Record IngestResult : Type := mkIngestResult {
  title : string;
  events_created : Z
}.

(** The texts [setMessage] is called with, one constructor per template. *)
Inductive Message : Type :=
| NoMessage
| Uploading (name : string)
| AudioIngested (title : string) (events : Z)
| DocumentIngested (title : string) (events : Z)
| Unsupported (fileExtension : string)
| UploadFailed (reason : string).

Record State : Type := mkState {
  isUploading : bool;
  message : Message
}.

Inductive Effect : Type :=
| IngestAudio (file : File) (userId : Z) (title : string)
| IngestDocument (file : File) (userId : Z) (title : string)
| CallOnUploadComplete
| ClearInput
| ConsoleError (reason : string).

Definition audio_extensions : list string := ["mp3"; "m4a"; "wav"; "ogg"].
Definition document_extensions : list string := ["pdf"; "md"; "txt"].

(** [file.name.split('.').pop().toLowerCase()]; [None] stands for the
    TypeError of calling a method on [undefined]. *)
Definition fileExtension (file : File) : option string :=
  match Js.pop (Js.split "." (name file)) with
  | Some ext => Some (Js.toLowerCase ext)
  | None => None
  end.

(** The two updates before the [try]: the state while the request is out. *)
Definition upload_begin (file : File) (st : State) : State :=
  mkState true (Uploading (name file)).

(** What follows a resolved ingestion: the success message, the callback if
    there is one, and the reset of the file input. *)
Definition after_ingest (onUploadComplete : bool) (msg : Message)
    : State * list Effect :=
  (mkState false msg,
   (if onUploadComplete then [CallOnUploadComplete] else []) ++ [ClearInput]).

(** The [catch] and [finally] blocks. *)
Definition failed (reason : string) : State * list Effect :=
  (mkState false (UploadFailed reason), [ConsoleError reason]).

(** [handleFileUpload], from the event to the end of [finally]. [file] is
    [event.target.files[0]]; [audio] and [document] are what the two
    endpoints answer for this file, with the error's message on rejection. *)
Definition handleFileUpload (onUploadComplete : bool)
    (audio document : File -> Api.Outcome IngestResult string)
    (file : option File) (st : State) : State * list Effect :=
  match file with
  | None => (st, [])
  | Some file =>
      match fileExtension file with
      | None => failed "TypeError"
      | Some ext =>
          if Js.includes audio_extensions ext then
            let call := IngestAudio file 1 (name file) in
            match audio file with
            | Api.Resolved result =>
                let '(st', effs) :=
                  after_ingest onUploadComplete
                    (AudioIngested (title result) (events_created result)) in
                (st', call :: effs)
            | Api.Rejected reason =>
                let '(st', effs) := failed reason in (st', call :: effs)
            end
          else if Js.includes document_extensions ext then
            let call := IngestDocument file 1 (name file) in
            match document file with
            | Api.Resolved result =>
                let '(st', effs) :=
                  after_ingest onUploadComplete
                    (DocumentIngested (title result) (events_created result)) in
                (st', call :: effs)
            | Api.Rejected reason =>
                let '(st', effs) := failed reason in (st', call :: effs)
            end
          else (mkState false (Unsupported ext), [])
      end
  end.

Definition is_ingest (e : Effect) : bool :=
  match e with
  | IngestAudio _ _ _ | IngestDocument _ _ _ => true
  | _ => false
  end.

End UploadPanel.

(** ** The Planner's calendar arithmetic *)

Module Planner.

(** The Planner agent (backend/app/agents) is not among the sources. What
    follows is its temporal resolution as section 4.1 of the spec words it:
    a relative expression is resolved against the current date that is
    passed in, by calendar arithmetic. *)

(** A calendar date is its proleptic Gregorian ordinal: day 1 is
    0001-01-01, a Monday. *)
Definition Date : Type := Z.

Inductive Weekday : Type :=
| Monday | Tuesday | Wednesday | Thursday | Friday | Saturday | Sunday.

Definition weekday_index (w : Weekday) : Z :=
  match w with
  | Monday => 0 | Tuesday => 1 | Wednesday => 2 | Thursday => 3
  | Friday => 4 | Saturday => 5 | Sunday => 6
  end.

(** The day of the week of a date, Monday being 0. *)
Definition weekday (d : Date) : Z := (d + 6) mod 7.

Definition is_weekday (w : Weekday) (d : Date) : bool :=
  weekday d =? weekday_index w.

Definition is_leap (y : Z) : bool :=
  (y mod 4 =? 0) && (negb (y mod 100 =? 0) || (y mod 400 =? 0)).

Definition days_before_year (y : Z) : Z :=
  let p := y - 1 in p * 365 + p / 4 - p / 100 + p / 400.

Definition days_in_month (y m : Z) : Z :=
  if m =? 2 then (if is_leap y then 29 else 28)
  else if (m =? 4) || (m =? 6) || (m =? 9) || (m =? 11) then 30
  else 31.

Fixpoint days_before_month (y : Z) (m : nat) : Z :=
  match m with
  | O => 0
  | S k => days_before_month y k + days_in_month y (Z.of_nat (S k))
  end.

(** The ordinal of year [y], month [m] (1..12), day [d]. *)
Definition ymd (y m d : Z) : Date :=
  days_before_year y + days_before_month y (Z.to_nat (m - 1)) + d.

(** The relative expressions this model resolves. *)
Inductive Relative : Type :=
| Today
| Yesterday
| Last (w : Weekday).

Definition parse_weekday (s : string) : option Weekday :=
  if String.eqb s "Monday" then Some Monday
  else if String.eqb s "Tuesday" then Some Tuesday
  else if String.eqb s "Wednesday" then Some Wednesday
  else if String.eqb s "Thursday" then Some Thursday
  else if String.eqb s "Friday" then Some Friday
  else if String.eqb s "Saturday" then Some Saturday
  else if String.eqb s "Sunday" then Some Sunday
  else None.

Definition parse_relative (s : string) : option Relative :=
  if String.eqb s "today" then Some Today
  else if String.eqb s "yesterday" then Some Yesterday
  else if String.prefix "last " s
  then match parse_weekday (String.substring 5 (String.length s - 5)%nat s) with
       | Some w => Some (Last w)
       | None => None
       end
  else None.

(** Modelled from the spec: the Planner's search for "the most recent"
    day of the week (the agent is not among the sources): the first date at
    or before [d] that falls on [w], looking at no more than [fuel] days. *)
Fixpoint scan_back (fuel : nat) (w : Weekday) (d : Date) : option Date :=
  match fuel with
  | O => None
  | S k => if is_weekday w d then Some d else scan_back k w (d - 1)
  end.

(** Modelled from the spec: the Planner's resolution of a relative
    expression (the agent is not among the sources). "yesterday" is the day
    before today; "last Tuesday" means the most recent Tuesday strictly
    before today, so the scan starts the day before. *)
Definition resolve (today : Date) (r : Relative) : option Date :=
  match r with
  | Today => Some today
  | Yesterday => Some (today - 1)
  | Last w => scan_back 7 w (today - 1)
  end.

Definition resolve_expression (today : Date) (s : string) : option Date :=
  match parse_relative s with
  | Some r => resolve today r
  | None => None
  end.

End Planner.

(** ** The Synthesizer's retry loop and its result *)

Module Synthesizer.

(** The Synthesizer agent (backend/app/agents) is not among the sources.
    What follows is section 4.5 of the spec: the draft / self-check /
    regenerate loop, and the dates of the query result. The confidence
    value is left out: the spec gives its range but not its formula. *)

(** The calls made to the generation collaborator, by purpose. A call is
    one call of the agent: the transport's own retries are inside it. *)
Inductive Purpose : Type := Draft | SelfCheck.

(** The collaborator as the agent sees it: the text of the draft asked for
    at the given attempt, [None] when generation fails for good, and the
    verdict of the self-check on that draft. *)
Record Generation : Type := mkGeneration {
  complete_draft : nat -> option string;
  self_check : nat -> string -> bool
}.

Record Accepted : Type := mkAccepted {
  answer : string;
  attempts : nat;            (* the number of drafts asked for *)
  passed : bool              (* the verdict on the accepted draft *)
}.

(** Modelled from the spec: the Synthesizer's generation loop (the agent is
    not among the sources). Draft, then check; a failed check asks for
    another draft while regenerations are left, and the last draft is kept
    whatever its check says. The log is the sequence of calls made. *)
Fixpoint drafts (g : Generation) (regenerations : nat) (attempt : nat)
    (log : list Purpose) : list Purpose * option Accepted :=
  match complete_draft g attempt with
  | None => (log ++ [Draft], None)
  | Some text =>
      let log' := log ++ [Draft; SelfCheck] in
      if self_check g attempt text
      then (log', Some (mkAccepted text (S attempt) true))
      else match regenerations with
           | O => (log', Some (mkAccepted text (S attempt) false))
           | S k => drafts g k (S attempt) log'
           end
  end.

(** Modelled from the spec: "regenerates at most once more". *)
Definition max_regenerations : nat := 1.

Definition synthesize (g : Generation) : list Purpose * option Accepted :=
  drafts g max_regenerations 0 [].

Definition draft_calls (log : list Purpose) : nat :=
  length (List.filter
            (fun p => match p with Draft => true | SelfCheck => false end)
            log).

(** The two kinds of retrieval result: a timeline chunk comes from a
    timeline-eligible event (audio, meeting), a document chunk from a
    document-eligible one (PDF, web page). *)
Inductive Modality : Type := TimelineChunk | DocumentChunk.

(** A retrieval result. The date may be missing on a document chunk, the
    source title on a timeline chunk. *)
Record Chunk : Type := mkChunk {
  modality : Modality;
  text : string;
  date : option Planner.Date;
  source_title : option string
}.

Definition is_timeline (c : Chunk) : bool :=
  match modality c with
  | TimelineChunk => true
  | DocumentChunk => false
  end.

(** The [timelineChunks] and the [documentChunks] of a query result, out of
    the chunks the answer cites. *)
Definition timelineChunks (cited : list Chunk) : list Chunk :=
  List.filter is_timeline cited.

Definition documentChunks (cited : list Chunk) : list Chunk :=
  List.filter (fun c => negb (is_timeline c)) cited.

(** Insertion into an ascending list without repetition. *)
Fixpoint insert_date (d : Z) (l : list Z) : list Z :=
  match l with
  | [] => [d]
  | x :: rest =>
      if d <? x then d :: l
      else if d =? x then l
      else x :: insert_date d rest
  end.

(** Modelled from the spec: the [datesUsed] of a query result (the
    Synthesizer is not among the sources): the dates of the timeline chunks
    cited, and of no document chunk, sorted and deduplicated. *)
Definition datesUsed (cited : list Chunk) : list Z :=
  foldr insert_date [] (omap date (timelineChunks cited)).

End Synthesizer.

(** ** The stages of a query and its fatal failures *)

Module Orchestrator.

(** Modelled from the spec: the orchestrator (backend/app/agents) is not
    among the sources; these are the stages of section 4.5 and the fatal
    outcomes of section 7, each carrying the stage that failed. *)
Inductive Stage : Type :=
| Planning | TimelineRetrieval | DocumentRetrieval | Alignment | Synthesis.

Inductive Fatal : Type := StoreUnavailable | GenerationFailure.

Record Failure : Type := mkFailure {
  failed_stage : Stage;
  fatal : Fatal
}.

End Orchestrator.

(** ** Views of a string *)

Module Text.

(** Is every code unit of the string white space? *)
Fixpoint all_white_space (s : string) : bool :=
  match s with
  | EmptyString => true
  | String c s' => Js.is_white_space c && all_white_space s'
  end.

Definition first_char (s : string) : option ascii :=
  match s with
  | EmptyString => None
  | String c _ => Some c
  end.

Fixpoint last_char (s : string) : option ascii :=
  match s with
  | EmptyString => None
  | String c EmptyString => Some c
  | String _ s' => last_char s'
  end.

(** Does the code unit occur in the string? *)
Fixpoint contains (c : ascii) (s : string) : bool :=
  match s with
  | EmptyString => false
  | String a s' => Ascii.eqb a c || contains c s'
  end.

(** The double quote, U+0022. *)
Definition quote : string := String (ascii_of_nat 34) EmptyString.

End Text.

(** ** components/Chat/InputBox.jsx: what is rendered *)

Module InputBoxView.

Import InputBox.

(** [onChange={(e) => setInput(e.target.value)}]. *)
Definition handleChange (value : string) (st : State) : State :=
  mkState value.

(** The [disabled] attribute of the Send button:
    [disabled || !input.trim()]. *)
Definition send_button_disabled (disabled : bool) (st : State) : bool :=
  disabled || negb (Js.truthy_str (Js.trim (input st))).

End InputBoxView.

(** ** components/Sources/SourceSelector.jsx and
       components/Sessions/SessionPanel.jsx *)

Module SourceSelector.

(** [handlePillClick]: the argument of [onSelect],
    [sourceId === selectedSourceId ? null : sourceId]. The card of the
    session panel does the same with [source.source_id]. *)
Definition handlePillClick (selectedSourceId : option Z) (sourceId : Z)
    : option Z :=
  if Js.strict_eq_id selectedSourceId sourceId then None else Some sourceId.

(** A click on a pill (or on a session card) as an update of the app: the
    component was rendered with the current selection. *)
Definition click (st : App.State) (sourceId : Z) : App.State :=
  App.step st
    (App.Select (handlePillClick (App.selectedSourceId st) sourceId)).

(** The Clear button: [onSelect(null)]. *)
Definition clear (st : App.State) : App.State :=
  App.step st (App.Select None).

(** The events of a handler that gave up: the user declined the
    confirmation, or the request was rejected. *)
Definition gave_up (ev : App.Event) : bool :=
  match ev with
  | App.Select _ => false
  | App.SourcesLoaded _ => false
  | App.SourcesFailed => true
  | App.SessionSourceRemove _ _ ok => negb ok
  | App.ClearSession confirmed ok => negb (confirmed && ok)
  | App.SourceDelete _ _ confirmed ok => negb (confirmed && ok)
  end.

End SourceSelector.

(** ** components/Chat/ChatInterface.jsx: the focus effect *)

Module ChatFocus.

Import ChatInterface.

(** [a === b] where both are [null] or a number. *)
Definition strict_eq (a b : option Z) : bool :=
  match a, b with
  | None, None => true
  | Some x, Some y => x =? y
  | _, _ => false
  end.

Definition focusMessage (selectedSource : option Source) : string :=
  match selectedSource with
  | Some s =>
      "Switched focus to " +:+ Text.quote +:+ title s +:+ Text.quote +:+
      ". Ask a question about this source to pull its context."
  | None =>
      "Cleared focused source. Ask about anything in your knowledge base."
  end.

(** The effect on [[selectedSourceId, selectedSource]]: [ref] is
    [lastSourceIdRef.current]. *)
Definition focus_effect (p : Props) (now : Z) (ref : option Z) (st : State)
    : option Z * State :=
  if strict_eq ref (selectedSourceId p) then (ref, st)
  else (selectedSourceId p,
        push (mkMessage assistant (focusMessage (selectedSource p)) now
                None None false) st).

End ChatFocus.

(** ** components/Chat/ChatInterface.jsx: the component over time *)

Module ChatSession.

Import ChatInterface.

Section WithError.

Context {E : Type}.

(** The component with its input box. [awaiting] holds the calls of
    [handleSendMessage] that are suspended at their [await], oldest first,
    each with the props its closure was created with; [trace] is what the
    component has done to the outside so far. *)
Record State : Type := mkSession {
  chat : ChatInterface.State;
  box : InputBox.State;
  props : Props;
  lastSourceIdRef : option Z;
  awaiting : list Props;
  trace : list (Effect E)
}.

Inductive Event : Type :=
| Change (value : string)
    (* the user edits the field *)
| Box (ev : InputBox.Event) (now : Z)
    (* a submit or a key press in the input box *)
| Settle (o : Api.Outcome QueryResponse E) (now : Z)
    (* the oldest outstanding request is resolved or rejected *)
| Render (p : Props) (now : Z).
    (* the parent renders the component with new props *)

Definition initialMessage (now : Z) : Message :=
  mkMessage assistant
    "Hello! I'm your Timeline Thinker. Ask me anything about the information you've shared with me."
    now None None false.

(** The first render: [useState([initialMessage])], [useState(false)],
    [useRef(selectedSourceId)], and an empty field. *)
Definition mount (p : Props) (now : Z) : State :=
  mkSession (mkState [initialMessage now] false) (InputBox.mkState EmptyString)
    p (selectedSourceId p) [] [].

(** [onSend={handleSendMessage}], up to the [await]. *)
Definition send (now : Z) (st : State) (userMessage : string) : State :=
  let '(chat', req) := send_begin (props st) now userMessage (chat st) in
  mkSession chat' (box st) (props st) (lastSourceIdRef st)
    (awaiting st ++ [props st]) (trace st ++ [ApiPost req]).

Definition step (st : State) (ev : Event) : State :=
  match ev with
  | Change value =>
      mkSession (chat st) (InputBoxView.handleChange value (box st))
        (props st) (lastSourceIdRef st) (awaiting st) (trace st)
  | Box ev now =>
      (* [<InputBox onSend={handleSendMessage} disabled={isLoading} />] *)
      let '(box', sent) := InputBox.handle (isLoading (chat st)) ev (box st) in
      fold_left (send now)
        sent
        (mkSession (chat st) box' (props st) (lastSourceIdRef st)
           (awaiting st) (trace st))
  | Settle o now =>
      match awaiting st with
      | [] => st
      | p :: rest =>
          let '(chat', effs) := send_settle p now o (chat st) in
          mkSession chat' (box st) (props st) (lastSourceIdRef st) rest
            (trace st ++ effs)
      end
  | Render p now =>
      let '(ref', chat') :=
        ChatFocus.focus_effect p now (lastSourceIdRef st) (chat st) in
      mkSession chat' (box st) p ref' (awaiting st) (trace st)
  end.

Definition run (p : Props) (now : Z) (evs : list Event) : State :=
  fold_left step evs (mount p now).

(** The messages the user wrote. *)
Definition user_messages (st : State) : list Message :=
  List.filter (fun m => match role m with user => true | assistant => false end)
    (messages (chat st)).

End WithError.

End ChatSession.

(** ** components/Upload/UploadPanel.jsx: the Web tab *)

Module WebUpload.

(** The texts [setMessage] is called with on this tab. *)
Inductive Message : Type :=
| NoMessage
| Ingesting (url : string)
| WebpageIngested (title : string) (events : Z)
| IngestionFailed (reason : string).

Record State : Type := mkState {
  url : string;
  isUploading : bool;
  message : Message
}.

Inductive Effect : Type :=
| Post (r : Api.Request)
| CallOnUploadComplete
| ConsoleError (reason : string).

(** [ingestWebpage(url, userId)]: the request handed to [api.post]. *)
Definition ingestWebpage (url : string) (userId : Z) : Api.Request :=
  Api.mkRequest "/ingest/webpage"
    (<["user_id" := Api.VNum userId]> (<["url" := Api.VStr url]> ∅)).

(** [handleWebpageSubmit], from the event to the end of [finally]; [api] is
    what the endpoint answers, with the error's message on rejection. *)
Definition handleWebpageSubmit (onUploadComplete : bool)
    (api : Api.Request -> Api.Outcome UploadPanel.IngestResult string)
    (st : State) : State * list Effect :=
  if negb (Js.truthy_str (Js.trim (url st))) then (st, [])
  else
    let req := ingestWebpage (url st) 1 in
    match api req with
    | Api.Resolved result =>
        (mkState EmptyString false
           (WebpageIngested (UploadPanel.title result)
              (UploadPanel.events_created result)),
         Post req :: (if onUploadComplete then [CallOnUploadComplete] else []))
    | Api.Rejected reason =>
        (mkState (url st) false (IngestionFailed reason),
         [Post req; ConsoleError reason])
    end.

Definition posts (effs : list Effect) : list Api.Request :=
  omap (fun e => match e with Post r => Some r | _ => None end) effs.

End WebUpload.

(** ** App.jsx and components/Timeline/TimelineSidebar.jsx: the timeline *)

Module Timeline.

Record DailyTimeline : Type := mkDailyTimeline {
  date : string;
  summary : option string;
  event_count : Z
}.

(** The three state variables of [App] behind the sidebar. *)
Record State : Type := mkState {
  timelines : list DailyTimeline;
  highlightedDates : list string;
  selectedTimelineDate : option string
}.

Definition init : State := mkState [] [] None.

(** [ToBoolean] on a value that is [null] or a string. *)
Definition truthy_date (o : option string) : bool :=
  match o with
  | None => false
  | Some s => Js.truthy_str s
  end.

(** The effect on [[timelines, selectedTimelineDate]]:
    [if (!selectedTimelineDate && timelines.length > 0)
       setSelectedTimelineDate(timelines[0].date)]. *)
Definition date_effect (st : State) : State :=
  if negb (truthy_date (selectedTimelineDate st))
  then match timelines st with
       | [] => st
       | first :: _ =>
           mkState (timelines st) (highlightedDates st) (Some (date first))
       end
  else st.

Inductive Event : Type :=
| TimelinesLoaded (l : list DailyTimeline)
    (* [loadTimeline]: [setTimelines(response.timelines)] *)
| TimelinesFailed
    (* [loadTimeline]: the request is rejected *)
| DatesUsed (dates : list string)
    (* [handleDatesUsed] *)
| DateClick (dateValue : string).
    (* [handleTimelineDateClick] *)

Definition apply_event (ev : Event) (st : State) : State :=
  match ev with
  | TimelinesLoaded l =>
      mkState l (highlightedDates st) (selectedTimelineDate st)
  | TimelinesFailed => st
  | DatesUsed dates =>
      mkState (timelines st) dates (selectedTimelineDate st)
  | DateClick dateValue =>
      mkState (timelines st) (highlightedDates st) (Some dateValue)
  end.

Definition step (st : State) (ev : Event) : State :=
  date_effect (apply_event ev st).

Definition run (evs : list Event) : State := fold_left step evs init.

Definition reachable (st : State) : Prop := exists evs, run evs = st.

(** [isHighlighted] of a row of the sidebar:
    [highlightedDates.includes(timeline.date)
       || selectedDate === timeline.date]. *)
Definition isHighlighted (st : State) (t : DailyTimeline) : bool :=
  Js.includes (highlightedDates st) (date t) ||
  match selectedTimelineDate st with
  | Some d => String.eqb d (date t)
  | None => false
  end.

(** [loadTimeline] once its request is settled: [reload] is what
    [getDailyTimeline] answers, the list of [response.timelines] or a
    rejection. *)
Definition loadTimeline {R} (reload : Api.Outcome (list DailyTimeline) R)
    (st : State) : State :=
  match reload with
  | Api.Resolved l => step st (TimelinesLoaded l)
  | Api.Rejected _ => step st TimelinesFailed
  end.

(** What the callbacks of a chat trace do to the timeline: [onDatesUsed] is
    [handleDatesUsed], and [onInteractionComplete] is
    [handleInteractionComplete], which calls [loadTimeline] (next to
    [loadSession] and [loadSources], which leave the timeline alone). *)
Definition chat_effect {E R} (reload : Api.Outcome (list DailyTimeline) R)
    (st : State) (e : ChatInterface.Effect E) : State :=
  match e with
  | ChatInterface.CallOnDatesUsed dates => step st (DatesUsed dates)
  | ChatInterface.CallOnInteractionComplete => loadTimeline reload st
  | _ => st
  end.

(** The timeline once the callbacks of a trace have run and the reload they
    started, if any, is settled. *)
Definition after_chat {E R} (reload : Api.Outcome (list DailyTimeline) R)
    (st : State) (effs : list (ChatInterface.Effect E)) : State :=
  fold_left (chat_effect reload) effs st.

End Timeline.

(** * Properties *)

(** ** The query request *)

Section QueryRequest.

Import Api ChatInterface.

Lemma query_payload_user_id question userId sourceId :
  query_payload question userId sourceId !! "user_id" = Some (VNum userId).
Proof.
  unfold query_payload.
  destruct sourceId as [sid|]; [destruct (Js.truthy_num sid)|];
    by simplify_map_eq.
Qed.

Lemma query_payload_question question userId sourceId :
  query_payload question userId sourceId !! "question" = Some (VStr question).
Proof.
  unfold query_payload.
  destruct sourceId as [sid|]; [destruct (Js.truthy_num sid)|];
    by simplify_map_eq.
Qed.

Lemma query_payload_source_id question userId sourceId :
  query_payload question userId sourceId !! "source_id" =
  if Js.truthy_id sourceId then VNum <$> sourceId else None.
Proof.
  unfold query_payload.
  destruct sourceId as [sid|]; simpl; [destruct (Js.truthy_num sid)|];
    by simplify_map_eq.
Qed.

Lemma query_payload_dom question userId sourceId :
  dom (query_payload question userId sourceId) =
  if Js.truthy_id sourceId
  then ({["source_id"; "question"; "user_id"]} : gset string)
  else {["question"; "user_id"]}.
Proof.
  unfold query_payload.
  destruct sourceId as [sid|]; simpl; [destruct (Js.truthy_num sid)|];
    rewrite !dom_insert_L, dom_empty_L; set_solver.
Qed.

Lemma truthy_num_true n : Js.truthy_num n = true <-> n ≠ 0.
Proof. unfold Js.truthy_num. destruct (Z.eqb_spec n 0); simpl; split; try done; lia. Qed.

Lemma send_begin_request p now userMessage st :
  (send_begin p now userMessage st).2 =
  Api.query userMessage 1 (selectedSourceId p).
Proof. reflexivity. Qed.

Lemma handleSendMessage_requests {E} p t_sent t_back
    (api : Request -> Outcome QueryResponse E) userMessage st :
  requests (handleSendMessage p t_sent t_back api userMessage st).2 =
  [Api.query userMessage 1 (selectedSourceId p)].
Proof.
  unfold handleSendMessage, send_begin, send_settle.
  destruct (api _) as [response|error]; simpl; [|done].
  destruct (dates_used response), (onDatesUsed p), (onInteractionComplete p);
    reflexivity.
Qed.

End QueryRequest.

Section FocusAndDate.

Import Api ChatInterface.


(** At every other input the request is right: every question sends
    exactly one request; when the selected focus source has a non-zero id
    the request carries that id as [source_id], and when nothing is
    selected ([null]) the request has no [source_id] field. The last clause
    also records what the truthiness test does to the id 0. *)
Theorem query_request_carries_focus_source {E} (p : Props) (t_sent t_back : Z)
    (api : Request -> Outcome QueryResponse E) (userMessage : string)
    (st : State) :
  exists req,
    requests (handleSendMessage p t_sent t_back api userMessage st).2 = [req] /\
    (forall sid, selectedSourceId p = Some sid -> sid ≠ 0 ->
       req_body req !! "source_id" = Some (VNum sid)) /\
    (selectedSourceId p = None \/ selectedSourceId p = Some 0 ->
       req_body req !! "source_id" = None).
Proof.
  exists (Api.query userMessage 1 (selectedSourceId p)).
  split; [apply handleSendMessage_requests|].
  split.
  - intros sid Hsel Hnz. simpl. rewrite query_payload_source_id, Hsel. simpl.
    apply truthy_num_true in Hnz. by rewrite Hnz.
  - intros [Hsel|Hsel]; simpl; by rewrite query_payload_source_id, Hsel.
Qed.

(** An instance: source 42 in focus, and no focus at all. *)
Lemma query_request_carries_focus_source_witness :
  let src := mkSource 42 "notes.pdf" "document" in
  let focused := mkProps true (Some 42) (Some src) true in
  let unfocused := mkProps true None None true in
  let api := fun _ : Request => Rejected (R := QueryResponse) tt in
  let st := mkState [] false in
  (exists req,
     requests (handleSendMessage focused 0 1 api "hi" st).2 = [req] /\
     req_body req !! "source_id" = Some (VNum 42)) /\
  (exists req,
     requests (handleSendMessage unfocused 0 1 api "hi" st).2 = [req] /\
     req_body req !! "source_id" = None).
Proof.
  intros src focused unfocused api st. split.
  - destruct (query_request_carries_focus_source focused 0 1 api "hi" st)
      as (req & Hreq & Hsome & _).
    exists req. split; [exact Hreq|]. apply Hsome; [reflexivity|lia].
  - destruct (query_request_carries_focus_source unfocused 0 1 api "hi" st)
      as (req & Hreq & _ & Hnone).
    exists req. split; [exact Hreq|]. apply Hnone. left. reflexivity.
Defined.

(** C2, as stated, fails: the request for a question has the two fields
    [question] and [user_id] and no other, and it is the same request
    whatever the clock reads when the question is sent: no current date is
    part of the call. *)
Lemma query_request_has_no_current_date :
  let p := mkProps true None None true in
  let st := mkState [] false in
  let req := (send_begin p 738894 "What did I do yesterday?" st).2 in
  dom (req_body req) = ({["question"; "user_id"]} : gset string) /\
  (send_begin p 738895 "What did I do yesterday?" st).2 = req.
Proof.
  split; [|reflexivity].
  simpl. apply (query_payload_dom _ 1 None).
Qed.

(** C2, amended: the call made for a question is a POST to [/query] whose
    body has exactly the fields [user_id] (always 1), [question] and, when
    the selected id is truthy, [source_id]; no current date is supplied,
    and the request does not depend on the client's clock. *)
Theorem query_request_fields (p : Props) (now : Z) (userMessage : string)
    (st : State) :
  let req := (send_begin p now userMessage st).2 in
  req_path req = "/query" /\
  dom (req_body req) =
    (if Js.truthy_id (selectedSourceId p)
     then ({["source_id"; "question"; "user_id"]} : gset string)
     else {["question"; "user_id"]}) /\
  req_body req !! "user_id" = Some (VNum 1) /\
  req_body req !! "question" = Some (VStr userMessage) /\
  (forall now' st', (send_begin p now' userMessage st').2 = req).
Proof.
  simpl. split; [reflexivity|].
  split; [apply query_payload_dom|].
  split; [apply query_payload_user_id|].
  split; [apply query_payload_question|].
  reflexivity.
Qed.

End FocusAndDate.

(** ** A failed query *)

Section FailedQuery.

Import Api ChatInterface.

Lemma send_settle_rejected {E} p now (e : E) st :
  send_settle p now (Rejected e) st =
  (mkState (messages st ++ [mkMessage assistant error_text now None None true])
     false,
   [ConsoleError "Query failed:" e]).
Proof. reflexivity. Qed.

(** The other branch, for comparison: a resolved request shows the answer
    in one assistant message that is not an error, and hands the dates to
    [onDatesUsed] when the response has them and the callback is there. *)
Lemma answered_query_shows_answer {E} p now (response : QueryResponse) st :
  let r := send_settle (E := E) p now (Resolved response) st in
  exists assistantMsg,
    messages r.1 = messages st ++ [assistantMsg] /\
    content assistantMsg = answer response /\
    isError assistantMsg = false /\
    isLoading r.1 = false /\
    (forall ds, CallOnDatesUsed ds ∈ r.2 <->
       onDatesUsed p = true /\ dates_used response = Some ds).
Proof.
  simpl. eexists. do 4 (split; [reflexivity|]). simpl. intros ds.
  destruct (dates_used response) as [ds'|], (onDatesUsed p),
    (onInteractionComplete p); simpl;
    rewrite ?elem_of_cons, ?elem_of_nil; split;
    try (intros [[=] [=]]; subst; by left);
    intros Hin;
    repeat match type of Hin with
           | _ \/ _ => destruct Hin as [Hin|Hin]
           end;
    try discriminate Hin; try contradiction;
    by injection Hin as ->.
Qed.

(** C3, as stated, fails: a store failure during timeline retrieval and a
    generation failure during synthesis put the same messages on the
    screen, so nothing shown can tell which stage failed. *)
Lemma error_report_hides_failing_stage :
  let p := mkProps true None None true in
  let st := mkState [] false in
  let shown := fun e : Orchestrator.Failure =>
    messages (handleSendMessage p 0 1 (fun _ => Rejected e)
                "What did I do yesterday?" st).1 in
  shown (Orchestrator.mkFailure Orchestrator.TimelineRetrieval
           Orchestrator.StoreUnavailable) =
  shown (Orchestrator.mkFailure Orchestrator.Synthesis
           Orchestrator.GenerationFailure) /\
  ~ exists identify : list Message -> Orchestrator.Stage,
      forall e, identify (shown e) = Orchestrator.failed_stage e.
Proof.
  split; [reflexivity|].
  intros [identify Hid].
  pose proof (Hid (Orchestrator.mkFailure Orchestrator.TimelineRetrieval
                     Orchestrator.StoreUnavailable)) as H1.
  pose proof (Hid (Orchestrator.mkFailure Orchestrator.Synthesis
                     Orchestrator.GenerationFailure)) as H2.
  simpl in H1, H2. congruence.
Qed.

(** C3, amended: when the request of a question is rejected, the messages
    shown grow by the user's own message and exactly one assistant message
    flagged as an error; its text is the fixed apology, the same for every
    failure (it names no stage), it has no metadata, and neither the
    dates-used callback nor the interaction-complete callback is called:
    the failure itself only goes to the console. *)
Theorem failed_query_shows_one_generic_error {E} (p : Props)
    (t_sent t_back : Z) (api : Request -> Outcome QueryResponse E)
    (userMessage : string) (st : State) (e : E) :
  api (Api.query userMessage 1 (selectedSourceId p)) = Rejected e ->
  let r := handleSendMessage p t_sent t_back api userMessage st in
  exists userMsg errorMsg,
    messages r.1 = messages st ++ [userMsg; errorMsg] /\
    role userMsg = user /\ content userMsg = userMessage /\
    isError userMsg = false /\
    role errorMsg = assistant /\ isError errorMsg = true /\
    content errorMsg = error_text /\ metadata errorMsg = None /\
    isLoading r.1 = false /\
    r.2 = [ApiPost (Api.query userMessage 1 (selectedSourceId p));
           ConsoleError "Query failed:" e].
Proof.
  intros Hrej r. subst r.
  unfold handleSendMessage, send_begin. rewrite Hrej, send_settle_rejected.
  simpl. eexists _, _. rewrite <- app_assoc. simpl.
  repeat split.
Qed.

(** An instance: generation fails for good while source 42 is in focus. *)
Lemma failed_query_shows_one_generic_error_witness :
  let p := mkProps true (Some 42)
             (Some (mkSource 42 "notes.pdf" "document")) true in
  let e := Orchestrator.mkFailure Orchestrator.Synthesis
             Orchestrator.GenerationFailure in
  let r := handleSendMessage p 0 1 (fun _ => Rejected e) "hi"
             (mkState [] false) in
  exists userMsg errorMsg,
    messages r.1 = [userMsg; errorMsg] /\
    content errorMsg = error_text /\ isError errorMsg = true.
Proof.
  intros p e r.
  destruct (failed_query_shows_one_generic_error p 0 1
              (fun _ => Rejected e) "hi" (mkState [] false) e eq_refl)
    as (userMsg & errorMsg & Hm & _ & _ & _ & _ & Herr & Htext & _).
  exists userMsg, errorMsg. repeat split; assumption.
Defined.

End FailedQuery.

(** ** The input box *)

Section InputBoxFacts.

Import InputBox.

Lemma truthy_str_true s : Js.truthy_str s = true <-> s ≠ EmptyString.
Proof. destruct s; simpl; split; congruence. Qed.

Lemma trimStart_no_leading_space s c rest :
  Js.trimStart s = String c rest -> Js.is_white_space c = false.
Proof.
  induction s as [|a s IH]; simpl; [discriminate|].
  destruct (Js.is_white_space a) eqn:Ha; [exact IH|].
  intros [= <- _]. exact Ha.
Qed.

Lemma handle_submission disabled ev st :
  is_submission ev = true -> handle disabled ev st = handleSubmit disabled st.
Proof.
  destruct ev as [|key shiftKey]; simpl; [done|].
  unfold handleKeyPress. by intros ->.
Qed.

Lemma handle_other_key disabled ev st :
  is_submission ev = false -> handle disabled ev st = (st, []).
Proof.
  destruct ev as [|key shiftKey]; simpl; [done|].
  unfold handleKeyPress. by intros ->.
Qed.

Lemma handleSubmit_cases disabled st :
  (Js.trim (input st) ≠ EmptyString /\ disabled = false /\
   handleSubmit disabled st = (mkState EmptyString, [Js.trim (input st)])) \/
  ((Js.trim (input st) = EmptyString \/ disabled = true) /\
   handleSubmit disabled st = (st, [])).
Proof.
  unfold handleSubmit.
  destruct (Js.truthy_str (Js.trim (input st))) eqn:Ht; simpl.
  - apply truthy_str_true in Ht. destruct disabled; simpl; [right|left]; auto.
  - right. split; [left|done].
    destruct (Js.trim (input st)); [done|discriminate].
Qed.

(** C8: on a submission of the input box (the form's submit or Enter
    without Shift) the send callback is called at most once; it is called
    only when the trimmed text is not empty and the box is not disabled,
    its argument is the trimmed text, and the field is then the empty
    string; when it is not called the field is left as it was. *)
Theorem input_box_sends_trimmed_text (disabled : bool) (ev : Event)
    (st : State) :
  is_submission ev = true ->
  let r := handle disabled ev st in
  (forall v, v ∈ r.2 ->
     v = Js.trim (input st) /\ Js.trim (input st) ≠ EmptyString /\
     disabled = false /\ input r.1 = EmptyString) /\
  (length r.2 <= 1)%nat /\
  (r.2 = [] -> r.1 = st) /\
  (Js.trim (input st) ≠ EmptyString -> disabled = false ->
   r.2 = [Js.trim (input st)]).
Proof.
  intros Hsub r. subst r. rewrite (handle_submission _ _ _ Hsub).
  destruct (handleSubmit_cases disabled st)
    as [(Hne & Hd & ->)|(Hor & ->)]; simpl.
  - split; [|split; [lia|split; [discriminate|reflexivity]]].
    intros v Hv. apply list_elem_of_singleton in Hv. by subst v.
  - split; [|split; [lia|split; [reflexivity|]]].
    + intros v Hv. by apply elem_of_nil in Hv.
    + intros Hne Hd. destruct Hor; congruence.
Qed.

(** An instance: Enter on a question typed with spaces around it. *)
Lemma input_box_sends_trimmed_text_witness :
  let r := handle false (KeyPress "Enter" false)
             (mkState "  what happened on Monday? ") in
  r.2 = ["what happened on Monday?"] /\ input r.1 = EmptyString.
Proof.
  intros r.
  destruct (input_box_sends_trimmed_text false (KeyPress "Enter" false)
              (mkState "  what happened on Monday? ") eq_refl)
    as (Hsent & _ & _ & Hsend).
  assert (Hr : r.2 = ["what happened on Monday?"]).
  { apply Hsend; [discriminate|reflexivity]. }
  split; [exact Hr|].
  apply (Hsent "what happened on Monday?").
  fold r. rewrite Hr. apply list_elem_of_here.
Defined.

End InputBoxFacts.

(** ** The focus selection of the app *)

Section FocusSelection.

Import ChatInterface App.

Lemma some_source_spec l sel :
  some_source l sel = true <-> exists s, s ∈ l /\ sel = Some (id s).
Proof.
  unfold some_source. rewrite existsb_exists. split.
  - intros (s & Hin & Heq). exists s. split; [by apply list_elem_of_In|].
    destruct sel as [n|]; simpl in Heq; [|discriminate].
    apply Z.eqb_eq in Heq. by subst n.
  - intros (s & Hin & ->). exists s. split; [by apply list_elem_of_In|].
    simpl. apply Z.eqb_refl.
Qed.

Lemma focus_effect_ok st : focus_ok (focus_effect st).
Proof.
  unfold focus_ok, focus_effect.
  destruct (Js.truthy_id (selectedSourceId st)) eqn:Ht; simpl.
  - destruct (some_source (sources st) (selectedSourceId st)) eqn:Hs; simpl.
    + by intros _.
    + discriminate.
  - rewrite Ht. discriminate.
Qed.

Lemma focus_effect_idempotent st :
  focus_effect (focus_effect st) = focus_effect st.
Proof.
  pose proof (focus_effect_ok st) as Hok. unfold focus_ok in Hok.
  unfold focus_effect at 1.
  destruct (Js.truthy_id (selectedSourceId (focus_effect st))); [|done].
  by rewrite Hok.
Qed.

Lemma run_snoc evs ev : run (evs ++ [ev]) = step (run evs) ev.
Proof. unfold run. by rewrite fold_left_app. Qed.

Lemma reachable_focus_ok st : reachable st -> focus_ok st.
Proof.
  intros [evs <-].
  destruct evs as [|ev evs _] using rev_ind.
  - unfold focus_ok. simpl. discriminate.
  - rewrite run_snoc. apply focus_effect_ok.
Qed.

Lemma focus_effect_resets st sid :
  selectedSourceId st = Some sid -> sid ≠ 0 ->
  (forall s, s ∈ sources st -> id s ≠ sid) ->
  selectedSourceId (focus_effect st) = None.
Proof.
  intros Hsel Hnz Hgone. unfold focus_effect.
  rewrite Hsel. simpl. apply truthy_num_true in Hnz. rewrite Hnz. simpl.
  destruct (some_source (sources st) (Some sid)) eqn:Hs; [|done].
  apply some_source_spec in Hs as (s & Hin & [= ->]).
  by destruct (Hgone s Hin).
Qed.


(** What the effect does establish, in the states the app settles in
    after its effects have run: a selected non-zero id is the id of a
    source in the loaded list (the selection is [null], or the 0 that the
    truthiness test lets through, or a loaded id); when a list is loaded
    that lacks the selected non-zero id the selection becomes [null]; and
    when the deletion of the selected source is confirmed and succeeds the
    selection becomes [null]. *)
Theorem focus_selection_is_loaded_or_cleared :
  (forall st, reachable st ->
     selectedSourceId st = None \/ selectedSourceId st = Some 0 \/
     exists s, s ∈ sources st /\ selectedSourceId st = Some (id s)) /\
  (forall st l sid,
     selectedSourceId st = Some sid -> sid ≠ 0 ->
     (forall s, s ∈ default [] l -> id s ≠ sid) ->
     selectedSourceId (step st (SourcesLoaded l)) = None) /\
  (forall st sid,
     selectedSourceId st = Some sid ->
     selectedSourceId (step st (SourceDelete sid (Some sid) true true)) = None).
Proof.
  split; [|split].
  - intros st Hreach. apply reachable_focus_ok in Hreach.
    unfold focus_ok in Hreach.
    destruct (selectedSourceId st) as [sid|] eqn:Hsel; [|by left].
    right. destruct (Z.eq_dec sid 0) as [->|Hnz]; [by left|right].
    apply some_source_spec, Hreach. simpl. by apply truthy_num_true.
  - intros st l sid Hsel Hnz Hgone. unfold step.
    apply (focus_effect_resets _ sid); [|done|].
    + by destruct l.
    + by destruct l.
  - intros st sid Hsel. unfold step. simpl. rewrite Z.eqb_refl. simpl.
    unfold focus_effect. reflexivity.
Qed.

(** An instance: source 7 is selected, then leaves the list or is deleted. *)
Lemma focus_selection_is_loaded_or_cleared_witness :
  let src := mkSource 7 "standup.mp3" "audio" in
  let st := run [SourcesLoaded (Some [src]); Select (Some 7)] in
  selectedSourceId st = Some 7 /\
  selectedSourceId (step st (SourcesLoaded (Some []))) = None /\
  selectedSourceId (step st (SourceDelete 7 (Some 7) true true)) = None.
Proof.
  intros src st.
  destruct focus_selection_is_loaded_or_cleared as (_ & Hload & Hdelete).
  split; [reflexivity|]. split.
  - apply (Hload st (Some []) 7); [reflexivity|lia|].
    intros s Hs. by apply elem_of_nil in Hs.
  - apply (Hdelete st 7). reflexivity.
Defined.

End FocusSelection.

(** ** The upload panel *)

Section Upload.

Import Api UploadPanel.

Lemma includes_spec l x : Js.includes l x = true <-> x ∈ l.
Proof.
  unfold Js.includes. rewrite existsb_exists, list_elem_of_In. split.
  - intros (y & Hin & Heq). apply String.eqb_eq in Heq. by subst y.
  - intros Hin. exists x. split; [done|apply String.eqb_refl].
Qed.

Lemma split_not_nil sep s : Js.split sep s ≠ [].
Proof.
  destruct s as [|c s]; simpl; [done|].
  destruct (Ascii.eqb c sep); [done|].
  by destruct (Js.split sep s).
Qed.

Lemma fileExtension_total file :
  exists seg, Js.pop (Js.split "." (name file)) = Some seg /\
              fileExtension file = Some (Js.toLowerCase seg).
Proof.
  unfold fileExtension, Js.pop.
  destruct (last (Js.split "." (name file))) as [seg|] eqn:Hlast.
  - by exists seg.
  - apply last_None in Hlast. by destruct (split_not_nil "." (name file)).
Qed.

Lemma extensions_disjoint ext :
  ext ∈ audio_extensions -> ext ∈ document_extensions -> False.
Proof.
  unfold audio_extensions, document_extensions.
  rewrite !elem_of_cons, !elem_of_nil. intros Ha Hd.
  destruct Ha as [->|[->|[->|[->|[]]]]];
    destruct Hd as [Hd|[Hd|[Hd|[]]]]; discriminate.
Qed.

(** Membership of an effect in an explicit trace that does not have it. *)
Ltac no_such_effect H :=
  exfalso; rewrite ?elem_of_cons, ?elem_of_nil in H;
  repeat match type of H with
         | _ \/ _ => destruct H as [H|H]
         end;
  first [discriminate H | exact H].

(** C10: for a chosen file the extension is the lower-cased text after the
    last dot of its name (the whole name when it has no dot). At most one
    ingestion request is made: the audio one when the extension is mp3,
    m4a, wav or ogg, the document one when it is pdf, md or txt, and for any
    other extension nothing is done but to show the unsupported-type
    message. The upload-complete callback is called only right after an
    ingestion request that was resolved. *)
Theorem upload_calls_one_endpoint (onUploadComplete : bool)
    (audio document : File -> Outcome IngestResult string)
    (file : File) (st : State) :
  let r := handleFileUpload onUploadComplete audio document (Some file) st in
  exists seg ext,
    Js.pop (Js.split "." (name file)) = Some seg /\
    ext = Js.toLowerCase seg /\
    (length (List.filter is_ingest r.2) <= 1)%nat /\
    (ext ∈ audio_extensions ->
       List.filter is_ingest r.2 = [IngestAudio file 1 (name file)]) /\
    (ext ∈ document_extensions ->
       List.filter is_ingest r.2 = [IngestDocument file 1 (name file)]) /\
    (ext ∉ audio_extensions -> ext ∉ document_extensions ->
       r = (mkState false (Unsupported ext), [])) /\
    (CallOnUploadComplete ∈ r.2 ->
       exists call result,
         r.2 = [call; CallOnUploadComplete; ClearInput] /\
         ((call = IngestAudio file 1 (name file) /\
           audio file = Resolved result) \/
          (call = IngestDocument file 1 (name file) /\
           document file = Resolved result))).
Proof.
  intros r. subst r.
  destruct (fileExtension_total file) as (seg & Hpop & Hext).
  exists seg, (Js.toLowerCase seg).
  split; [exact Hpop|]. split; [reflexivity|].
  unfold handleFileUpload. rewrite Hext.
  set (ext := Js.toLowerCase seg).
  destruct (Js.includes audio_extensions ext) eqn:Ha.
  - apply includes_spec in Ha.
    destruct (audio file) as [result|reason] eqn:Haudio;
      destruct onUploadComplete; simpl;
      (split; [lia|]); (split; [done|]);
      (split; [intros Hd; by destruct (extensions_disjoint ext)|]);
      (split; [intros Hna; by destruct Hna|]);
      intros Hin; try by no_such_effect Hin.
    exists (IngestAudio file 1 (name file)), result. split; [done|by left].
  - assert (Hna : ext ∉ audio_extensions).
    { intros Hin. apply includes_spec in Hin. congruence. }
    destruct (Js.includes document_extensions ext) eqn:Hd.
    + apply includes_spec in Hd.
      destruct (document file) as [result|reason] eqn:Hdoc;
        destruct onUploadComplete; simpl;
        (split; [lia|]); (split; [done|]); (split; [done|]);
        (split; [intros _ Hnd; by destruct Hnd|]);
        intros Hin; try by no_such_effect Hin.
      exists (IngestDocument file 1 (name file)), result.
      split; [done|by right].
    + assert (Hnd : ext ∉ document_extensions).
      { intros Hin. apply includes_spec in Hin. congruence. }
      simpl. split; [lia|]. split; [done|]. split; [done|].
      split; [done|]. intros Hin. by apply elem_of_nil in Hin.
Qed.

(** An instance: a recording whose name has two dots and capitals. *)
Lemma upload_calls_one_endpoint_witness :
  let file := mkFile "Standup.2024-01-09.MP3" in
  let audio := fun _ : File => Resolved (E := string)
                 (mkIngestResult "Standup" 3) in
  let document := fun _ : File => Rejected (R := IngestResult) "unused" in
  let r := handleFileUpload true audio document (Some file)
             (mkState false NoMessage) in
  List.filter is_ingest r.2 = [IngestAudio file 1 "Standup.2024-01-09.MP3"].
Proof.
  intros file audio document r.
  destruct (upload_calls_one_endpoint true audio document file
              (mkState false NoMessage))
    as (seg & ext & Hpop & Hext & _ & Haudio & _).
  apply Haudio. injection Hpop as <-. subst ext.
  unfold audio_extensions. apply list_elem_of_here.
Defined.

End Upload.

(** ** Relative dates *)

Section RelativeDates.

Import Planner.

Lemma weekday_index_range w : 0 <= weekday_index w < 7.
Proof. destruct w; simpl; lia. Qed.

Lemma scan_back_sound fuel w d t :
  scan_back fuel w d = Some t ->
  is_weekday w t = true /\ d - Z.of_nat fuel < t <= d /\
  (forall t', t < t' <= d -> is_weekday w t' = false).
Proof.
  revert d. induction fuel as [|fuel IH]; intros d; simpl scan_back.
  - discriminate.
  - destruct (is_weekday w d) eqn:Hd.
    + intros [= <-]. repeat split; try lia. exact Hd.
    + intros Hscan. destruct (IH _ Hscan) as (Hw & Hrange & Hnone).
      repeat split; try lia; [exact Hw|].
      intros t' Ht'. destruct (Z.eq_dec t' d) as [->|Hne]; [exact Hd|].
      apply Hnone. lia.
Qed.

Lemma scan_back_finds fuel w d (k : nat) :
  (k < fuel)%nat -> is_weekday w (d - Z.of_nat k) = true ->
  is_Some (scan_back fuel w d).
Proof.
  revert d k. induction fuel as [|fuel IH]; intros d k Hk Hw; [lia|].
  simpl. destruct (is_weekday w d) eqn:Hd; [by eexists|].
  destruct k as [|k].
  - replace (d - Z.of_nat 0) with d in Hw by lia. congruence.
  - apply (IH (d - 1) k); [lia|].
    replace (d - 1 - Z.of_nat k) with (d - Z.of_nat (S k)) by lia. exact Hw.
Qed.

(** Every run of seven days has each day of the week. *)
Lemma weekday_within_seven w d :
  exists k : nat, (k < 7)%nat /\ is_weekday w (d - Z.of_nat k) = true.
Proof.
  pose proof (weekday_index_range w) as Hw.
  exists (Z.to_nat ((weekday d - weekday_index w) mod 7)).
  pose proof (Z.mod_pos_bound (weekday d - weekday_index w) 7 ltac:(lia)) as Hk.
  split; [lia|].
  rewrite Z2Nat.id by lia.
  unfold is_weekday, weekday in *. apply Z.eqb_eq.
  rewrite Zminus_mod_idemp_l.
  replace (d - (d + 6 - weekday_index w) mod 7 + 6)
    with ((d + 6) - (d + 6 - weekday_index w) mod 7) by lia.
  rewrite Zminus_mod_idemp_r.
  replace (d + 6 - (d + 6 - weekday_index w)) with (weekday_index w) by lia.
  apply Z.mod_small. lia.
Qed.

Lemma last_weekday_resolves today w :
  exists t, resolve today (Last w) = Some t /\
    weekday t = weekday_index w /\ today - 7 <= t < today /\
    (forall t', t' < today -> weekday t' = weekday_index w -> t' <= t).
Proof.
  destruct (weekday_within_seven w (today - 1)) as (k & Hk & Hw).
  destruct (scan_back_finds 7 w (today - 1) k Hk Hw) as [t Ht].
  exists t. split; [exact Ht|].
  destruct (scan_back_sound _ _ _ _ Ht) as (Hwt & Hrange & Hnone).
  split; [by apply Z.eqb_eq|]. split; [lia|].
  intros t' Hbefore Hw'. destruct (Z_le_gt_dec t' t) as [|Hgt]; [done|].
  assert (is_weekday w t' = false) as Hno by (apply Hnone; lia).
  unfold is_weekday in Hno. apply Z.eqb_neq in Hno. congruence.
Qed.

(** The scenario of the spec: with 2024-01-12 as the current date, "last
    Tuesday" is 2024-01-09. *)
Example last_tuesday_of_2024_01_12 :
  resolve_expression (ymd 2024 1 12) "last Tuesday" = Some (ymd 2024 1 9).
Proof. reflexivity. Qed.

(** C7: for every current date D, "yesterday" resolves to exactly D-1, and
    "last Tuesday" resolves to a date that is a Tuesday and is strictly
    before D (the most recent such date). *)
Theorem relative_dates_resolve (D : Date) :
  resolve_expression D "yesterday" = Some (D - 1) /\
  exists t, resolve_expression D "last Tuesday" = Some t /\
    weekday t = weekday_index Tuesday /\ t < D /\
    (forall t', t' < D -> weekday t' = weekday_index Tuesday -> t' <= t).
Proof.
  split; [reflexivity|].
  destruct (last_weekday_resolves D Tuesday) as (t & Ht & Hw & Hrange & Hmax).
  exists t. split; [exact Ht|]. split; [exact Hw|]. split; [lia|exact Hmax].
Qed.

(** An instance: on 2024-01-12 "last Tuesday" is no earlier than 2024-01-02. *)
Lemma relative_dates_resolve_witness :
  exists t, resolve_expression (ymd 2024 1 12) "last Tuesday" = Some t /\
            ymd 2024 1 2 <= t < ymd 2024 1 12.
Proof.
  destruct (relative_dates_resolve (ymd 2024 1 12))
    as (_ & t & Ht & _ & Hbefore & Hrecent).
  exists t. split; [exact Ht|]. split; [|exact Hbefore].
  apply Hrecent; [reflexivity|reflexivity].
Defined.

End RelativeDates.

(** ** The Synthesizer *)

Section SynthesizerFacts.

Import Synthesizer.

Lemma draft_calls_app log log' :
  draft_calls (log ++ log') = (draft_calls log + draft_calls log')%nat.
Proof. unfold draft_calls. by rewrite List.filter_app, length_app. Qed.

Lemma draft_calls_snoc log :
  draft_calls (log ++ [Draft]) = S (draft_calls log) /\
  draft_calls (log ++ [Draft; SelfCheck]) = S (draft_calls log).
Proof.
  rewrite !draft_calls_app.
  change (draft_calls [Draft]) with 1%nat.
  change (draft_calls [Draft; SelfCheck]) with 1%nat. lia.
Qed.

(** With [k] regenerations allowed the loop asks for at most [k + 1]
    drafts, and it always asks for at least one. *)
Lemma drafts_bound g k attempt log :
  (draft_calls log < draft_calls (drafts g k attempt log).1
   <= draft_calls log + S k)%nat.
Proof.
  revert attempt log. induction k as [|k IH]; intros attempt log;
    destruct (draft_calls_snoc log) as [H1 H2]; simpl.
  - destruct (complete_draft g attempt) as [text|]; simpl; [|lia].
    destruct (self_check g attempt text); simpl; lia.
  - destruct (complete_draft g attempt) as [text|]; simpl; [|lia].
    destruct (self_check g attempt text); simpl; [lia|].
    specialize (IH (S attempt) (log ++ [Draft; SelfCheck])). lia.
Qed.

(** The number of drafts recorded in the result is the number asked for. *)
Lemma drafts_attempts g k attempt log acc :
  draft_calls log = attempt ->
  (drafts g k attempt log).2 = Some acc ->
  attempts acc = draft_calls (drafts g k attempt log).1.
Proof.
  revert attempt log. induction k as [|k IH]; intros attempt log Hlog;
    destruct (draft_calls_snoc log) as [H1 H2]; simpl.
  - destruct (complete_draft g attempt) as [text|]; simpl; [|discriminate].
    destruct (self_check g attempt text); simpl; intros [= <-]; simpl; lia.
  - destruct (complete_draft g attempt) as [text|]; simpl; [|discriminate].
    destruct (self_check g attempt text); simpl.
    + intros [= <-]. simpl. lia.
    + apply IH. lia.
Qed.

(** C6: for every behaviour of the generation collaborator the Synthesizer
    asks for at most two drafts. When the first draft passes its check it
    is the answer after one draft call; when it fails, exactly one more
    draft is asked for and that second draft is the answer whatever its own
    check says. *)
Theorem synthesizer_drafts_at_most_twice (g : Generation) :
  let r := synthesize g in
  (1 <= draft_calls r.1 <= 2)%nat /\
  (forall d1, complete_draft g 0 = Some d1 -> self_check g 0 d1 = true ->
     draft_calls r.1 = 1%nat /\ r.2 = Some (mkAccepted d1 1 true)) /\
  (forall d1 d2,
     complete_draft g 0 = Some d1 -> self_check g 0 d1 = false ->
     complete_draft g 1 = Some d2 ->
     draft_calls r.1 = 2%nat /\
     r.2 = Some (mkAccepted d2 2 (self_check g 1 d2))).
Proof.
  intros r. subst r. unfold synthesize, max_regenerations.
  split; [|split].
  - pose proof (drafts_bound g 1 0 []) as H.
    change (draft_calls []) with 0%nat in H. lia.
  - intros d1 Hd1 Hc1. simpl. rewrite Hd1, Hc1. by simpl.
  - intros d1 d2 Hd1 Hc1 Hd2. simpl. rewrite Hd1, Hc1, Hd2.
    by destruct (self_check g 1 d2).
Qed.

(** An instance: a collaborator whose drafts never pass the check. *)
Lemma synthesizer_drafts_at_most_twice_witness :
  let g := mkGeneration (fun _ => Some "draft") (fun _ _ => false) in
  draft_calls (synthesize g).1 = 2%nat /\
  (synthesize g).2 = Some (mkAccepted "draft" 2 false).
Proof.
  intros g.
  destruct (synthesizer_drafts_at_most_twice g) as (_ & _ & Hsecond).
  apply (Hsecond "draft" "draft"); reflexivity.
Defined.

(** The scenario of the spec: the first check fails and the second passes;
    two drafts, two checks. *)
Example second_draft_passes :
  synthesize (mkGeneration (fun n => Some (if Nat.eqb n 0 then "vague" else "grounded"))
                (fun n _ => negb (Nat.eqb n 0))) =
  ([Draft; SelfCheck; Draft; SelfCheck], Some (mkAccepted "grounded" 2 true)).
Proof. reflexivity. Qed.

End SynthesizerFacts.

(** ** The dates of a query result *)

Section DatesUsed.

Import Synthesizer.

Lemma insert_date_elem d l x : x ∈ insert_date d l <-> x = d \/ x ∈ l.
Proof.
  induction l as [|y l IH]; simpl.
  - rewrite list_elem_of_singleton, elem_of_nil. tauto.
  - destruct (Z.ltb_spec d y); [by rewrite elem_of_cons|].
    destruct (Z.eqb_spec d y) as [->|Hne].
    + rewrite elem_of_cons. tauto.
    + rewrite !elem_of_cons, IH. tauto.
Qed.

Lemma insert_date_sorted d l :
  StronglySorted Z.lt l -> StronglySorted Z.lt (insert_date d l).
Proof.
  induction 1 as [|y l Hsorted IH Hall]; simpl.
  - repeat constructor.
  - destruct (Z.ltb_spec d y) as [Hlt|Hge].
    + constructor; [by constructor|].
      constructor; [done|].
      eapply Forall_impl; [exact Hall|]. intros z Hz. simpl in Hz. lia.
    + destruct (Z.eqb_spec d y) as [->|Hne]; [by constructor|].
      constructor; [exact IH|].
      apply Forall_forall. intros z Hz.
      apply insert_date_elem in Hz as [->|Hz]; [lia|].
      by eapply Forall_forall in Hall.
Qed.

Lemma strictly_sorted_NoDup l : StronglySorted Z.lt l -> NoDup l.
Proof.
  induction 1 as [|y l Hsorted IH Hall]; constructor; [|exact IH].
  intros Hin. eapply Forall_forall in Hall; [|exact Hin]. lia.
Qed.

Lemma strictly_sorted_ascending l :
  StronglySorted Z.lt l -> StronglySorted Z.le l.
Proof.
  induction 1 as [|y l Hsorted IH Hall]; constructor; [exact IH|].
  eapply Forall_impl; [exact Hall|]. intros z Hz. simpl in Hz. lia.
Qed.

Lemma datesUsed_strictly_sorted cited : StronglySorted Z.lt (datesUsed cited).
Proof.
  unfold datesUsed.
  induction (omap date (timelineChunks cited)) as [|d ds IH]; simpl.
  - constructor.
  - by apply insert_date_sorted.
Qed.

Lemma timelineChunks_elem cited c :
  c ∈ timelineChunks cited <-> c ∈ cited /\ modality c = TimelineChunk.
Proof.
  unfold timelineChunks. rewrite !list_elem_of_In, filter_In.
  unfold is_timeline. destruct (modality c); split; intros [? ?]; done.
Qed.

Lemma datesUsed_elem cited d :
  d ∈ datesUsed cited <->
  exists c, c ∈ cited /\ modality c = TimelineChunk /\ date c = Some d.
Proof.
  unfold datesUsed.
  assert (Hfold : forall ds, d ∈ foldr insert_date [] ds <-> d ∈ ds).
  { induction ds as [|x ds IH]; simpl; [done|].
    rewrite insert_date_elem, IH, elem_of_cons. tauto. }
  rewrite Hfold, list_elem_of_omap. split.
  - intros (c & Hc & Hd). apply timelineChunks_elem in Hc as [Hc Hm].
    by exists c.
  - intros (c & Hc & Hm & Hd). exists c. split; [|done].
    by apply timelineChunks_elem.
Qed.

(** C4: every date of a query result is the date of a timeline chunk the
    answer cites (a date that only a cited document chunk carries is not
    among them), no date occurs twice, and the dates are in ascending
    order; and the date of every cited timeline chunk is there. *)
Theorem dates_used_sorted_subset (cited : list Chunk) :
  (forall d, d ∈ datesUsed cited ->
     exists c, c ∈ cited /\ modality c = TimelineChunk /\ date c = Some d) /\
  NoDup (datesUsed cited) /\
  StronglySorted Z.le (datesUsed cited) /\
  (forall c d, c ∈ cited -> modality c = TimelineChunk -> date c = Some d ->
     d ∈ datesUsed cited).
Proof.
  pose proof (datesUsed_strictly_sorted cited) as Hsorted.
  split; [|split; [|split]].
  - intros d. apply datesUsed_elem.
  - by apply strictly_sorted_NoDup.
  - by apply strictly_sorted_ascending.
  - intros c d Hc Hm Hd. apply datesUsed_elem. by exists c.
Qed.

(** An instance: the same meeting chunk cited twice. *)
Lemma dates_used_sorted_subset_witness :
  let meeting := mkChunk TimelineChunk "Q4 sales exceeded targets by 15%"
                   (Some (Planner.ymd 2024 1 9)) None in
  Planner.ymd 2024 1 9 ∈ datesUsed [meeting; meeting] /\
  NoDup (datesUsed [meeting; meeting]).
Proof.
  intros meeting.
  destruct (dates_used_sorted_subset [meeting; meeting])
    as (_ & Hnodup & _ & Hcited).
  split; [|exact Hnodup].
  apply (Hcited meeting); [apply list_elem_of_here|reflexivity|reflexivity].
Defined.

(** The scenario of the spec: one timeline chunk dated 2024-01-09 is cited,
    next to a document chunk, here one that carries a date of its own; the
    document's date is not used. *)
Example dates_used_of_one_meeting :
  datesUsed [mkChunk TimelineChunk "Q4 sales exceeded targets by 15%"
               (Some (Planner.ymd 2024 1 9)) None;
             mkChunk DocumentChunk "Q4 Sales Report shows 15% growth"
               (Some (Planner.ymd 2024 3 1)) (Some "Q4 Sales Report")] =
  [Planner.ymd 2024 1 9].
Proof. reflexivity. Qed.

End DatesUsed.

(** * Further properties of the client *)

(** ** Trimming *)

Section Trimming.

Import Text.

Lemma string_app_cons c a b : String c a +:+ b = String c (a +:+ b).
Proof. reflexivity. Qed.

Lemma string_app_nil_l b : EmptyString +:+ b = b.
Proof. reflexivity. Qed.

Lemma string_app_nil_r s : s +:+ EmptyString = s.
Proof.
  induction s as [|c s IH]; [done|]. by rewrite string_app_cons, IH.
Qed.

Lemma string_app_assoc a b c : (a +:+ b) +:+ c = a +:+ (b +:+ c).
Proof.
  induction a as [|x a IH]; [done|]. by rewrite !string_app_cons, IH.
Qed.

Lemma rev_app a b : Js.rev (a +:+ b) = Js.rev b +:+ Js.rev a.
Proof.
  induction a as [|x a IH].
  - by rewrite string_app_nil_l, string_app_nil_r.
  - rewrite string_app_cons. simpl. rewrite IH. apply string_app_assoc.
Qed.

Lemma rev_involutive s : Js.rev (Js.rev s) = s.
Proof.
  induction s as [|c s IH]; simpl; [done|].
  rewrite rev_app. simpl.
  by rewrite string_app_nil_l, string_app_cons, string_app_nil_l, IH.
Qed.

Lemma rev_empty s : Js.rev s = EmptyString -> s = EmptyString.
Proof. intros H. rewrite <- (rev_involutive s), H. reflexivity. Qed.

Lemma last_char_snoc s c : last_char (s +:+ String c EmptyString) = Some c.
Proof.
  induction s as [|x s IH]; [done|].
  rewrite string_app_cons. simpl. rewrite IH.
  destruct s; [by rewrite string_app_nil_l|by rewrite string_app_cons].
Qed.

Lemma first_char_app a b :
  first_char (a +:+ b) =
  match first_char a with Some c => Some c | None => first_char b end.
Proof. destruct a; reflexivity. Qed.

Lemma last_char_cons c s : is_Some (last_char (String c s)).
Proof.
  revert c. induction s as [|d s IH]; intros c; [by eexists|].
  change (last_char (String c (String d s))) with (last_char (String d s)).
  apply IH.
Qed.

Lemma first_char_rev s : first_char (Js.rev s) = last_char s.
Proof.
  induction s as [|c s IH]; [reflexivity|].
  simpl Js.rev. rewrite first_char_app, IH.
  destruct s as [|d s]; [reflexivity|].
  change (last_char (String c (String d s))) with (last_char (String d s)).
  by destruct (last_char_cons d s) as [x ->].
Qed.

Lemma last_char_rev s : last_char (Js.rev s) = first_char s.
Proof. by rewrite <- first_char_rev, rev_involutive. Qed.

Lemma all_white_space_app a b :
  all_white_space (a +:+ b) = all_white_space a && all_white_space b.
Proof.
  induction a as [|x a IH]; [done|].
  rewrite string_app_cons. simpl. by rewrite IH, andb_assoc.
Qed.

Lemma all_white_space_rev s : all_white_space (Js.rev s) = all_white_space s.
Proof.
  induction s as [|c s IH]; simpl; [done|].
  rewrite all_white_space_app, IH. simpl.
  rewrite andb_true_r. apply andb_comm.
Qed.

Lemma trimStart_empty s :
  Js.trimStart s = EmptyString <-> all_white_space s = true.
Proof.
  induction s as [|c s IH]; simpl; [done|].
  destruct (Js.is_white_space c); simpl; [exact IH|]. split; discriminate.
Qed.

Lemma trimStart_fixed s :
  (forall c, first_char s = Some c -> Js.is_white_space c = false) ->
  Js.trimStart s = s.
Proof.
  destruct s as [|c s]; simpl; [done|].
  intros H. by rewrite (H c eq_refl).
Qed.

(** Trimming at the start keeps the end of what is left. *)
Lemma trimStart_last s :
  Js.trimStart s ≠ EmptyString -> last_char (Js.trimStart s) = last_char s.
Proof.
  induction s as [|c s IH]; simpl; [done|].
  destruct (Js.is_white_space c); [|done].
  intros Hne. rewrite (IH Hne).
  destruct s; [by destruct Hne|done].
Qed.

Lemma trim_first s c :
  first_char (Js.trim s) = Some c -> Js.is_white_space c = false.
Proof.
  unfold Js.trim, Js.trimEnd. rewrite first_char_rev. intros Hlast.
  assert (Hne : Js.trimStart (Js.rev (Js.trimStart s)) ≠ EmptyString).
  { intros Heq. by rewrite Heq in Hlast. }
  rewrite (trimStart_last _ Hne), last_char_rev in Hlast.
  destruct (Js.trimStart s) as [|x t] eqn:Ht; [discriminate|].
  injection Hlast as <-. by apply (trimStart_no_leading_space s x t).
Qed.

Lemma trim_last s c :
  last_char (Js.trim s) = Some c -> Js.is_white_space c = false.
Proof.
  unfold Js.trim, Js.trimEnd. rewrite last_char_rev.
  destruct (Js.trimStart (Js.rev (Js.trimStart s))) as [|x t] eqn:Ht;
    [discriminate|].
  intros [= <-]. by apply (trimStart_no_leading_space _ _ _ Ht).
Qed.

Lemma trim_empty s : Js.trim s = EmptyString <-> all_white_space s = true.
Proof.
  unfold Js.trim, Js.trimEnd. split.
  - intros H. apply rev_empty, trimStart_empty in H.
    rewrite all_white_space_rev in H.
    destruct (Js.trimStart s) as [|x t] eqn:Ht; [by apply trimStart_empty|].
    simpl in H. rewrite (trimStart_no_leading_space s x t Ht) in H.
    discriminate.
  - intros H. apply trimStart_empty in H. by rewrite H.
Qed.

Lemma trim_idempotent s : Js.trim (Js.trim s) = Js.trim s.
Proof.
  set (u := Js.trim s).
  assert (H1 : Js.trimStart u = u).
  { apply trimStart_fixed. intros c. apply trim_first. }
  assert (H2 : Js.trimStart (Js.rev u) = Js.rev u).
  { apply trimStart_fixed. intros c. rewrite first_char_rev.
    apply trim_last. }
  unfold Js.trim at 1, Js.trimEnd. by rewrite H1, H2, rev_involutive.
Qed.

End Trimming.

(** ** The input box, continued *)

Section InputBoxMore.

Import Text InputBox InputBoxView.

Lemma handle_sent disabled ev st v :
  v ∈ (handle disabled ev st).2 ->
  v = Js.trim (input st) /\ v ≠ EmptyString.
Proof.
  destruct (is_submission ev) eqn:Hsub.
  - rewrite (handle_submission _ _ _ Hsub).
    destruct (handleSubmit_cases disabled st)
      as [(Hne & _ & ->)|(_ & ->)]; simpl; intros Hv.
    + apply list_elem_of_singleton in Hv. by subst v.
    + by apply elem_of_nil in Hv.
  - rewrite (handle_other_key _ _ _ Hsub). simpl. intros Hv.
    by apply elem_of_nil in Hv.
Qed.

(** Whatever the event and the field, a text handed to the send callback is
    not empty, neither begins nor ends with a white-space character, and is
    left as it is by another trim. *)
Theorem sent_text_has_no_outer_space (disabled : bool) (ev : Event)
    (st : State) (v : string) :
  v ∈ (handle disabled ev st).2 ->
  v ≠ EmptyString /\
  (forall c, first_char v = Some c -> Js.is_white_space c = false) /\
  (forall c, last_char v = Some c -> Js.is_white_space c = false) /\
  Js.trim v = v.
Proof.
  intros Hv. apply handle_sent in Hv as [-> Hne].
  split; [exact Hne|]. split; [apply trim_first|].
  split; [apply trim_last|apply trim_idempotent].
Qed.

(** An instance: a question typed between a tab and two spaces. *)
Lemma sent_text_has_no_outer_space_witness :
  let v := "why?" in
  v ≠ EmptyString /\ Js.trim v = v.
Proof.
  intros v.
  destruct (sent_text_has_no_outer_space false Submit
              (mkState (String (ascii_of_nat 9) "why?  ")) v)
    as (Hne & _ & _ & Htrim).
  - apply list_elem_of_here.
  - split; [exact Hne|exact Htrim].
Defined.

(** The box stays silent exactly when the event is no submission, or the
    box is disabled, or the field holds nothing but white space; and when
    it stays silent the field is left as it was. *)
Theorem input_box_silent_iff (disabled : bool) (ev : Event) (st : State) :
  ((handle disabled ev st).2 = [] <->
   is_submission ev = false \/ disabled = true \/
   all_white_space (input st) = true) /\
  ((handle disabled ev st).2 = [] -> (handle disabled ev st).1 = st).
Proof.
  destruct (is_submission ev) eqn:Hsub.
  - rewrite (handle_submission _ _ _ Hsub).
    destruct (handleSubmit_cases disabled st)
      as [(Hne & Hd & ->)|(Hor & ->)]; simpl.
    + split; [|discriminate]. split; [discriminate|].
      intros [?|[?|Hws]]; [discriminate|congruence|].
      apply trim_empty in Hws. congruence.
    + split; [|done]. split; [|done]. intros _. right.
      destruct Hor as [Hempty|Hd]; [right; by apply trim_empty|by left].
  - rewrite (handle_other_key _ _ _ Hsub). simpl.
    split; [|done]. split; [by left|done].
Qed.

(** The Send button is greyed out exactly when a submit would send
    nothing. *)
Theorem send_button_disabled_iff_silent (disabled : bool) (st : State) :
  send_button_disabled disabled st = true <->
  (handle disabled Submit st).2 = [].
Proof.
  unfold send_button_disabled. simpl.
  destruct (handleSubmit_cases disabled st)
    as [(Hne & -> & ->)|(Hor & ->)]; simpl.
  - apply truthy_str_true in Hne. rewrite Hne. simpl. split; discriminate.
  - split; [done|]. intros _.
    destruct Hor as [->| ->]; [|done]. simpl. apply orb_true_r.
Qed.

End InputBoxMore.

(** ** File names and their extension *)

Section FileExtension.

Import Text UploadPanel.

Lemma split_app_sep sep a b :
  Js.split sep (a +:+ String sep b) = Js.split sep a ++ Js.split sep b.
Proof.
  induction a as [|c a IH].
  - rewrite string_app_nil_l. simpl. by rewrite Ascii.eqb_refl.
  - rewrite string_app_cons. simpl. rewrite IH.
    destruct (Ascii.eqb c sep); [done|].
    pose proof (split_not_nil sep a) as Hne.
    by destruct (Js.split sep a).
Qed.

Lemma split_no_sep sep s : contains sep s = false -> Js.split sep s = [s].
Proof.
  induction s as [|c s IH]; simpl; [done|].
  intros H. apply orb_false_elim in H as [Hc Hs].
  by rewrite Hc, (IH Hs).
Qed.

Lemma split_segments sep s :
  Forall (fun seg => contains sep seg = false) (Js.split sep s).
Proof.
  induction s as [|c s IH]; simpl; [by repeat constructor|].
  destruct (Ascii.eqb c sep) eqn:Hc; [by constructor|].
  destruct (Js.split sep s) as [|seg rest]; [by repeat constructor; simpl; rewrite Hc|].
  inversion IH as [|? ? Hseg Hrest]; subst.
  constructor; [|done]. simpl. by rewrite Hc, Hseg.
Qed.

Lemma lower_char_dot c : Ascii.eqb (Js.lower_char c) "." = Ascii.eqb c ".".
Proof. by destruct c as [[] [] [] [] [] [] [] []]. Qed.

Lemma lower_char_idempotent c :
  Js.lower_char (Js.lower_char c) = Js.lower_char c.
Proof. by destruct c as [[] [] [] [] [] [] [] []]. Qed.

Lemma toLowerCase_idempotent s :
  Js.toLowerCase (Js.toLowerCase s) = Js.toLowerCase s.
Proof.
  induction s as [|c s IH]; simpl; [done|].
  by rewrite lower_char_idempotent, IH.
Qed.

Lemma contains_dot_toLowerCase s :
  contains "." (Js.toLowerCase s) = contains "." s.
Proof.
  induction s as [|c s IH]; simpl; [done|]. by rewrite lower_char_dot, IH.
Qed.

Lemma split_toLowerCase s :
  Js.split "." (Js.toLowerCase s) = Js.toLowerCase <$> Js.split "." s.
Proof.
  induction s as [|c s IH]; simpl; [done|].
  rewrite lower_char_dot, IH.
  destruct (Ascii.eqb c "."); [done|].
  by destruct (Js.split "." s).
Qed.

(** Lower-casing before or after taking the last segment is the same. *)
Lemma fileExtension_lowered n :
  fileExtension (mkFile n) = Js.pop (Js.split "." (Js.toLowerCase n)).
Proof.
  unfold fileExtension, Js.pop. simpl.
  rewrite split_toLowerCase, fmap_last.
  by destruct (last (Js.split "." n)).
Qed.

(** For a name [base.ext] whose [ext] has no dot the extension is [ext] in
    lower case, whatever dots [base] has; for a name without any dot it is
    the whole name in lower case. *)
Theorem extension_after_last_dot (base ext : string) :
  contains "." ext = false ->
  fileExtension (mkFile (base +:+ "." +:+ ext)) = Some (Js.toLowerCase ext) /\
  fileExtension (mkFile ext) = Some (Js.toLowerCase ext).
Proof.
  intros Hext. unfold fileExtension, Js.pop. simpl.
  change ("." +:+ ext) with (String "." ext).
  rewrite split_app_sep, (split_no_sep _ _ Hext), last_snoc. simpl.
  done.
Qed.

(** An instance: a dotted base and a capitalised extension. *)
Lemma extension_after_last_dot_witness :
  fileExtension (mkFile "minutes.2024.Q4.PDF") = Some "pdf".
Proof.
  apply (extension_after_last_dot "minutes.2024.Q4" "PDF"). reflexivity.
Defined.

(** For names made of code units below 256 (Latin-1), where lower-casing
    works on each code unit by itself, the extension depends on the name
    only up to letter case. Beyond Latin-1 this is not so: the final-sigma
    rule makes lower-casing depend on what surrounds a letter. *)
Theorem extension_ignores_case (n1 n2 : string) :
  Js.toLowerCase n1 = Js.toLowerCase n2 ->
  fileExtension (mkFile n1) = fileExtension (mkFile n2).
Proof. intros H. by rewrite !fileExtension_lowered, H. Qed.

(** An instance: the same recording named in capitals and in small
    letters. *)
Lemma extension_ignores_case_witness :
  fileExtension (mkFile "STANDUP.MP3") = fileExtension (mkFile "standup.mp3").
Proof. apply extension_ignores_case. reflexivity. Defined.

(** The extension of any file has no dot and no capital letter in it. *)
Theorem extension_is_plain (file : File) (ext : string) :
  fileExtension file = Some ext ->
  contains "." ext = false /\ Js.toLowerCase ext = ext.
Proof.
  unfold fileExtension, Js.pop.
  destruct (last (Js.split "." (name file))) as [seg|] eqn:Hlast;
    [|discriminate].
  intros [= <-]. split; [|apply toLowerCase_idempotent].
  rewrite contains_dot_toLowerCase.
  pose proof (split_segments "." (name file)) as Hall.
  apply last_Some_elem_of in Hlast.
  by eapply Forall_forall in Hall.
Qed.

(** An instance: the archive of a tarball. *)
Lemma extension_is_plain_witness :
  contains "." "gz" = false /\ Js.toLowerCase "gz" = "gz".
Proof.
  apply (extension_is_plain (mkFile "backup.tar.GZ") "gz"). reflexivity.
Defined.

End FileExtension.

(** ** The upload panel, continued *)

Section UploadMore.

Import Api Text UploadPanel.

(** Case analysis on the membership of an effect in an explicit trace. *)
Ltac trace_cases H :=
  rewrite ?elem_of_cons, ?elem_of_nil in H;
  repeat match type of H with
         | _ \/ _ => destruct H as [H|H]
         end;
  try discriminate H; try contradiction.

Lemma known_extension_has_no_dot ext :
  Js.toLowerCase ext ∈ audio_extensions ++ document_extensions ->
  contains "." ext = false.
Proof.
  intros Hin. rewrite <- contains_dot_toLowerCase.
  unfold audio_extensions, document_extensions in Hin. simpl in Hin.
  trace_cases Hin; by rewrite Hin.
Qed.

(** A file named [base.ext] goes to audio ingestion when [ext] is mp3, m4a,
    wav or ogg in any letter case, and to document ingestion when it is
    pdf, md or txt in any letter case, whatever [base] is. *)
Theorem upload_routes_by_last_extension (onUploadComplete : bool)
    (audio document : File -> Outcome IngestResult string)
    (base ext : string) (st : State) :
  let file := mkFile (base +:+ "." +:+ ext) in
  let r := handleFileUpload onUploadComplete audio document (Some file) st in
  (Js.toLowerCase ext ∈ audio_extensions ->
     List.filter is_ingest r.2 = [IngestAudio file 1 (name file)]) /\
  (Js.toLowerCase ext ∈ document_extensions ->
     List.filter is_ingest r.2 = [IngestDocument file 1 (name file)]).
Proof.
  intros file r. subst r. split; intros Hin.
  - assert (Hdot : contains "." ext = false).
    { apply known_extension_has_no_dot, elem_of_app. by left. }
    destruct (extension_after_last_dot base ext Hdot) as [Hext _].
    unfold handleFileUpload. fold file in Hext. rewrite Hext.
    apply includes_spec in Hin. rewrite Hin.
    by destruct (audio file), onUploadComplete.
  - assert (Hdot : contains "." ext = false).
    { apply known_extension_has_no_dot, elem_of_app. by right. }
    destruct (extension_after_last_dot base ext Hdot) as [Hext _].
    unfold handleFileUpload. fold file in Hext. rewrite Hext.
    destruct (Js.includes audio_extensions (Js.toLowerCase ext)) eqn:Ha.
    { apply includes_spec in Ha. by destruct (extensions_disjoint _ Ha Hin). }
    apply includes_spec in Hin. rewrite Hin.
    by destruct (document file), onUploadComplete.
Qed.

(** An instance: a dotted base and an extension in mixed case. *)
Lemma upload_routes_by_last_extension_witness :
  let file := mkFile "minutes.v2.Pdf" in
  let answer := fun _ : File =>
    Rejected (R := IngestResult) "503" in
  List.filter is_ingest
    (handleFileUpload true answer answer (Some file)
       (mkState false NoMessage)).2 =
  [IngestDocument file 1 "minutes.v2.Pdf"].
Proof.
  intros file answer.
  apply (upload_routes_by_last_extension true answer answer
           "minutes.v2" "Pdf" (mkState false NoMessage)).
  unfold document_extensions. apply list_elem_of_here.
Defined.

(** When the handler is through with a file the panel is no longer
    uploading; the file input is cleared exactly when a success message is
    shown, and an error is logged exactly when a failure message with that
    reason is shown; the callback comes only with a cleared input. *)
Theorem upload_banner_matches_effects (onUploadComplete : bool)
    (audio document : File -> Outcome IngestResult string)
    (file : File) (st : State) :
  let r := handleFileUpload onUploadComplete audio document (Some file) st in
  isUploading r.1 = false /\
  (ClearInput ∈ r.2 <->
   exists title events,
     message r.1 = AudioIngested title events \/
     message r.1 = DocumentIngested title events) /\
  (forall reason,
     ConsoleError reason ∈ r.2 <-> message r.1 = UploadFailed reason) /\
  (CallOnUploadComplete ∈ r.2 -> ClearInput ∈ r.2).
Proof.
  intros r. subst r. unfold handleFileUpload.
  destruct (fileExtension file) as [ext|].
  2:{ simpl. split; [done|]. split; [|split].
      - split; [intros H; trace_cases H|intros (? & ? & [H|H]); discriminate].
      - intros reason. split; [intros H; trace_cases H; by injection H as ->|].
        intros [= ->]. apply list_elem_of_here.
      - intros H; trace_cases H. }
  destruct (Js.includes audio_extensions ext);
    [destruct (audio file) as [result|why]
    |destruct (Js.includes document_extensions ext);
       [destruct (document file) as [result|why]|]];
    simpl; (split; [done|]); (split; [|split]).
  all: try (intros reason; split;
            [intros H; destruct onUploadComplete; simpl in H; trace_cases H;
             try (by injection H as ->)
            |intros [= ->]; rewrite ?elem_of_cons; auto]).
  all: try (split;
            [intros H; destruct onUploadComplete; simpl in H; trace_cases H;
             eauto
            |intros (? & ? & [H|H]); try discriminate H;
             destruct onUploadComplete; simpl; rewrite ?elem_of_cons; auto]).
  all: intros H; destruct onUploadComplete; simpl in *; trace_cases H;
       rewrite ?elem_of_cons; auto.
Qed.

End UploadMore.

(** ** The Web tab *)

Section WebTab.

Import Api Text WebUpload.

(** A blank address (empty or white space only) makes no request and
    changes nothing. Any other address makes exactly one request, for the
    address as it stands in the field, and the panel is not uploading
    afterwards; a resolved request empties the field and calls the callback
    if there is one; a rejected one keeps the address in the field, shows
    the reason and calls nothing back. *)
Theorem webpage_submit_outcomes (onUploadComplete : bool)
    (api : Request -> Outcome UploadPanel.IngestResult string) (st : State) :
  let r := handleWebpageSubmit onUploadComplete api st in
  let req := ingestWebpage (url st) 1 in
  (all_white_space (url st) = true -> r = (st, [])) /\
  (all_white_space (url st) = false ->
     posts r.2 = [req] /\ isUploading r.1 = false /\
     (forall result, api req = Resolved result ->
        url r.1 = EmptyString /\
        (CallOnUploadComplete ∈ r.2 <-> onUploadComplete = true)) /\
     (forall reason, api req = Rejected reason ->
        url r.1 = url st /\ message r.1 = IngestionFailed reason /\
        CallOnUploadComplete ∉ r.2)).
Proof.
  intros r req. subst r req. unfold handleWebpageSubmit. split.
  - intros Hblank. apply trim_empty in Hblank. by rewrite Hblank.
  - intros Hfilled.
    assert (Ht : Js.truthy_str (Js.trim (url st)) = true).
    { apply truthy_str_true. intros Hempty. apply trim_empty in Hempty.
      congruence. }
    rewrite Ht. simpl.
    destruct (api (ingestWebpage (url st) 1)) as [result|reason]; simpl.
    + split; [by destruct onUploadComplete|]. split; [done|].
      split; [|intros ? [=]]. intros _ _. split; [done|].
      destruct onUploadComplete; simpl; rewrite ?elem_of_cons, ?elem_of_nil.
      * split; [done|]. intros _. right. by left.
      * split; [|done]. intros [H|[]]. discriminate H.
    + split; [done|]. split; [done|]. split; [intros ? [=]|].
      intros why [= <-]. split; [done|]. split; [done|].
      rewrite !elem_of_cons, elem_of_nil. intros [H|[H|[]]]; discriminate.
Qed.

(** An instance: the server refuses an address. *)
Lemma webpage_submit_outcomes_witness :
  let st := mkState "https://example.com/a" false NoMessage in
  let r := handleWebpageSubmit true (fun _ => Rejected "timeout") st in
  url r.1 = "https://example.com/a" /\
  message r.1 = IngestionFailed "timeout".
Proof.
  intros st r.
  destruct (webpage_submit_outcomes true (fun _ => Rejected "timeout") st)
    as (_ & Hfilled).
  destruct (Hfilled eq_refl) as (_ & _ & _ & Hrej).
  destruct (Hrej "timeout" eq_refl) as (Hurl & Hmsg & _).
  split; [exact Hurl|exact Hmsg].
Defined.

End WebTab.

(** ** The focus selection, continued *)

Section FocusMore.

Import Api ChatInterface App.

Lemma focus_effect_fixed st : focus_ok st -> focus_effect st = st.
Proof.
  unfold focus_ok, focus_effect. intros Hok.
  destruct (Js.truthy_id (selectedSourceId st)); [|done].
  by rewrite Hok.
Qed.

Lemma find_source_Some l sel s :
  find_source l sel = Some s -> s ∈ l /\ sel = Some (id s).
Proof.
  unfold find_source. intros H. apply find_some in H as [Hin Heq].
  split; [by apply list_elem_of_In|].
  destruct sel as [n|]; simpl in Heq; [|discriminate].
  apply Z.eqb_eq in Heq. by subst n.
Qed.

Lemma find_source_None l sel :
  find_source l sel = None <-> some_source l sel = false.
Proof.
  unfold find_source, some_source.
  induction l as [|s l IH]; simpl; [done|].
  destruct (Js.strict_eq_id sel (id s)); simpl; [split; discriminate|exact IH].
Qed.

(** In every state the app settles in (after its effect has run), the
    source object handed to the chat and the selected id agree: a source
    handed over is a loaded one with the selected id; a selected non-zero
    id comes with its source; and no selection comes with no source. In
    the render committed before the effect runs the second clause can
    fail: there a non-zero id that is not loaded comes with no source. *)
Lemma chat_props_agree (st : State) :
  reachable st ->
  (forall s, selectedSource (chat_props st) = Some s ->
     s ∈ sources st /\ selectedSourceId st = Some (id s)) /\
  (forall sid, selectedSourceId st = Some sid -> sid ≠ 0 ->
     exists s, selectedSource (chat_props st) = Some s /\ id s = sid) /\
  (selectedSourceId st = None -> selectedSource (chat_props st) = None).
Proof.
  intros Hreach. apply reachable_focus_ok in Hreach. unfold focus_ok in Hreach.
  simpl. split; [|split].
  - intros s Hs. by apply find_source_Some.
  - intros sid Hsel Hnz. rewrite Hsel in *. simpl in Hreach.
    apply truthy_num_true in Hnz. specialize (Hreach Hnz).
    destruct (find_source (sources st) (Some sid)) as [s|] eqn:Hfind.
    + exists s. split; [done|].
      apply find_source_Some in Hfind as [_ [= ->]]. done.
    + apply find_source_None in Hfind. congruence.
  - intros ->. clear Hreach. unfold find_source.
    induction (sources st) as [|s l IH]; [done|exact IH].
Qed.

(** An instance: two sources loaded, the second one selected. *)
Lemma chat_props_agree_witness :
  let a := mkSource 3 "plan.md" "document" in
  let b := mkSource 5 "standup.mp3" "audio" in
  let st := run [SourcesLoaded (Some [a; b]); Select (Some 5)] in
  exists s, selectedSource (chat_props st) = Some s /\ id s = 5.
Proof.
  intros a b st.
  destruct (chat_props_agree st) as (_ & Hsome & _); [by eexists|].
  apply Hsome; [reflexivity|lia].
Defined.

(** With the props the app hands over in a state it has settled in, which
    are the props of any render a question can be sent from, an answered
    question shows the user's message and the answer, and the answer is
    labelled with a source id exactly when the request was restricted to a
    source, and then with that same id. *)
Theorem answer_names_the_source_asked_for {E} (app : App.State)
    (t_sent t_back : Z) (api : Request -> Outcome QueryResponse E)
    (userMessage : string) (st : ChatInterface.State)
    (response : QueryResponse) :
  reachable app ->
  let p := chat_props app in
  let req := Api.query userMessage 1 (ChatInterface.selectedSourceId p) in
  api req = Resolved response ->
  exists userMsg assistantMsg,
    messages (handleSendMessage p t_sent t_back api userMessage st).1 =
      messages st ++ [userMsg; assistantMsg] /\
    content userMsg = userMessage /\
    content assistantMsg = answer response /\
    (forall n, req_body req !! "source_id" = Some (VNum n) <->
       n ≠ 0 /\ exists md, metadata assistantMsg = Some md /\ sourceId md = n).
Proof.
  intros Hreach p req Hres. subst req.
  destruct (chat_props_agree app Hreach) as (Hsrc & Hsel & _).
  subst p. unfold chat_props in *.
  cbn [selectedSource ChatInterface.selectedSourceId] in *.
  remember (find_source (sources app) (App.selectedSourceId app)) as found
    eqn:Hfound.
  unfold handleSendMessage, send_begin.
  cbn [ChatInterface.selectedSourceId]. rewrite Hres.
  cbn [send_settle push setIsLoading messages isLoading fst snd
       selectedSource].
  eexists _, _. rewrite <- app_assoc.
  split; [reflexivity|]. split; [reflexivity|]. split; [reflexivity|].
  intros n. cbn [req_body Api.query metadata].
  rewrite query_payload_source_id. split.
  - destruct (App.selectedSourceId app) as [sid|] eqn:Hsid; simpl;
      [|discriminate].
    destruct (Js.truthy_num sid) eqn:Ht; [|discriminate].
    intros [= ->]. apply truthy_num_true in Ht. split; [exact Ht|].
    destruct (Hsel n eq_refl Ht) as (s & -> & Hid).
    eexists. split; [reflexivity|exact Hid].
  - intros (Hnz & md & Hmd & Hmdid).
    destruct found as [s|]; [|discriminate].
    injection Hmd as <-. simpl in Hmdid. subst n.
    destruct (Hsrc s eq_refl) as [_ ->]. simpl.
    apply truthy_num_true in Hnz. by rewrite Hnz.
Qed.

(** An instance: an answer about source 5. *)
Lemma answer_names_the_source_asked_for_witness :
  let app := run [SourcesLoaded (Some [mkSource 5 "standup.mp3" "audio"]);
                  Select (Some 5)] in
  let api := fun _ : Request =>
    Resolved (E := unit) (mkQueryResponse "You discussed Q4." None) in
  exists userMsg assistantMsg,
    messages (handleSendMessage (chat_props app) 0 1 api "standup?"
                (ChatInterface.mkState [] false)).1 =
      [userMsg; assistantMsg] /\
    content assistantMsg = "You discussed Q4.".
Proof.
  intros app api.
  destruct (answer_names_the_source_asked_for app 0 1 api "standup?"
              (ChatInterface.mkState [] false)
              (mkQueryResponse "You discussed Q4." None))
    as (userMsg & assistantMsg & Hm & _ & Ha & _);
    [by eexists|reflexivity|].
  exists userMsg, assistantMsg. split; [exact Hm|exact Ha].
Defined.

(** A handler that gives up (the user declines the confirmation, or the
    request is rejected) leaves the source list and the selection of a
    state the app reaches exactly as they were. *)
Theorem giving_up_changes_nothing (st : State) (ev : Event) :
  reachable st -> SourceSelector.gave_up ev = true -> step st ev = st.
Proof.
  intros Hreach Hgave. apply reachable_focus_ok in Hreach.
  unfold step.
  assert (Happly : apply_event ev st = st).
  { destruct ev as [x|l| |sid seen ok|confirmed ok|sid seen confirmed ok];
      simpl in *; try discriminate; try done.
    - by destruct ok.
    - by destruct confirmed, ok.
    - by destruct confirmed, ok. }
  rewrite Happly. by apply focus_effect_fixed.
Qed.

(** An instance: the user declines to delete the selected source. *)
Lemma giving_up_changes_nothing_witness :
  let st := run [SourcesLoaded (Some [mkSource 5 "standup.mp3" "audio"]);
                 Select (Some 5)] in
  step st (SourceDelete 5 (Some 5) false true) = st.
Proof.
  intros st. apply giving_up_changes_nothing; [by eexists|reflexivity].
Defined.

(** A click on the pill of a loaded source selects it, unless it is the
    selected one, and then the click clears the selection; the source list
    is left alone. Two clicks on the same pill end with that source
    selected if it was selected before, and with nothing selected
    otherwise: a selection of another source that the first click replaced
    is not brought back by the second. *)
Theorem pill_click_toggles (st : State) (s : Source) :
  s ∈ sources st ->
  selectedSourceId (SourceSelector.click st (id s)) =
    (if Js.strict_eq_id (selectedSourceId st) (id s) then None
     else Some (id s)) /\
  sources (SourceSelector.click st (id s)) = sources st /\
  selectedSourceId
    (SourceSelector.click (SourceSelector.click st (id s)) (id s)) =
    (if Js.strict_eq_id (selectedSourceId st) (id s) then Some (id s)
     else None).
Proof.
  intros Hin.
  assert (Hclick : forall st', sources st' = sources st ->
            SourceSelector.click st' (id s) =
            mkState (sources st)
              (if Js.strict_eq_id (selectedSourceId st') (id s) then None
               else Some (id s))).
  { intros st' Hsrc. unfold SourceSelector.click, step,
      SourceSelector.handlePillClick.
    destruct (Js.strict_eq_id (selectedSourceId st') (id s)); simpl;
      unfold focus_effect, setSelectedSourceId; simpl; rewrite Hsrc.
    - done.
    - assert (some_source (sources st) (Some (id s)) = true) as ->.
      { apply some_source_spec. by exists s. }
      by rewrite andb_false_r. }
  rewrite (Hclick st eq_refl). simpl. split; [done|]. split; [done|].
  rewrite Hclick by done. simpl.
  destruct (Js.strict_eq_id (selectedSourceId st) (id s)); simpl.
  - done.
  - by rewrite Z.eqb_refl.
Qed.

(** An instance: source 3 is selected, then the pill of source 5 is clicked
    twice; the selection goes from 3 to 5 to nothing. *)
Lemma pill_click_toggles_witness :
  let a := mkSource 3 "plan.md" "document" in
  let b := mkSource 5 "standup.mp3" "audio" in
  let st := run [SourcesLoaded (Some [a; b]); Select (Some 3)] in
  selectedSourceId st = Some 3 /\
  selectedSourceId (SourceSelector.click st 5) = Some 5 /\
  selectedSourceId (SourceSelector.click (SourceSelector.click st 5) 5) = None.
Proof.
  intros a b st.
  destruct (pill_click_toggles st b) as (Hone & _ & Htwo).
  - apply list_elem_of_further, list_elem_of_here.
  - split; [reflexivity|]. split; [exact Hone|exact Htwo].
Defined.

(** A click on a pill or a session card whose non-zero id is not in the
    loaded list selects nothing: the effect clears it at once. *)
Theorem click_on_unloaded_source_selects_nothing (st : State) (sid : Z) :
  sid ≠ 0 -> (forall s, s ∈ sources st -> id s ≠ sid) ->
  selectedSourceId (SourceSelector.click st sid) = None.
Proof.
  intros Hnz Hgone. unfold SourceSelector.click, step,
    SourceSelector.handlePillClick.
  destruct (Js.strict_eq_id (selectedSourceId st) sid); simpl.
  - unfold focus_effect. reflexivity.
  - by apply (focus_effect_resets _ sid).
Qed.

(** An instance: a session card is clicked before the sources are
    loaded. *)
Lemma click_on_unloaded_source_selects_nothing_witness :
  selectedSourceId (SourceSelector.click init 9) = None.
Proof.
  apply click_on_unloaded_source_selects_nothing; [lia|].
  intros s Hs. by apply elem_of_nil in Hs.
Defined.

End FocusMore.

(** ** The chat over time *)

Section ChatOverTime.

Import Api ChatInterface ChatSession.

Context {E : Type}.

Lemma strict_eq_true a b : ChatFocus.strict_eq a b = true <-> a = b.
Proof.
  destruct a as [x|], b as [y|]; simpl; try (split; congruence).
  rewrite Z.eqb_eq. split; congruence.
Qed.

(** The focus effect logs a change of the selected id once: afterwards the
    remembered id is the selected one; nothing is logged when the id is the
    remembered one, and otherwise exactly one assistant message that is not
    an error; running the effect again, also with another source object
    for the same id, logs nothing more. *)
Theorem focus_effect_logs_each_change_once (p : Props) (now : Z)
    (ref : option Z) (st : ChatInterface.State) :
  let r := ChatFocus.focus_effect p now ref st in
  r.1 = selectedSourceId p /\
  isLoading r.2 = isLoading st /\
  (ref = selectedSourceId p -> r.2 = st) /\
  (ref ≠ selectedSourceId p ->
     exists m, messages r.2 = messages st ++ [m] /\
       role m = assistant /\ isError m = false /\
       content m = ChatFocus.focusMessage (selectedSource p)) /\
  (forall p' now', selectedSourceId p' = selectedSourceId p ->
     ChatFocus.focus_effect p' now' r.1 r.2 = r).
Proof.
  intros r. subst r. unfold ChatFocus.focus_effect.
  destruct (ChatFocus.strict_eq ref (selectedSourceId p)) eqn:Heq; simpl.
  - apply strict_eq_true in Heq. subst ref.
    split; [done|]. split; [done|]. split; [done|]. split; [done|].
    intros p' now' ->.
    by rewrite (proj2 (strict_eq_true _ _) eq_refl).
  - split; [done|]. split; [done|]. split.
    { intros ->. rewrite (proj2 (strict_eq_true _ _) eq_refl) in Heq.
      discriminate. }
    split; [intros _; by eexists|].
    intros p' now' ->.
    by rewrite (proj2 (strict_eq_true _ _) eq_refl).
Qed.

(** An instance: the focus moves from nothing to source 5. *)
Lemma focus_effect_logs_each_change_once_witness :
  let src := mkSource 5 "standup.mp3" "audio" in
  let p := mkProps true (Some 5) (Some src) true in
  exists m,
    messages (ChatFocus.focus_effect p 0 None (mkState [] false)).2 = [m] /\
    isError m = false.
Proof.
  intros src p.
  destruct (focus_effect_logs_each_change_once p 0 None (mkState [] false))
    as (_ & _ & _ & Hchange & _).
  destruct (Hchange ltac:(discriminate)) as (m & Hm & _ & Herr & _).
  exists m. split; [exact Hm|exact Herr].
Defined.

Lemma session_run_snoc p now (evs : list (Event (E := E))) ev :
  run p now (evs ++ [ev]) = step (run p now evs) ev.
Proof. unfold run. by rewrite fold_left_app. Qed.

Lemma handle_cases disabled ev st :
  (InputBox.handle disabled ev st).2 = [] \/
  (disabled = false /\ Js.trim (InputBox.input st) ≠ EmptyString /\
   (InputBox.handle disabled ev st).2 = [Js.trim (InputBox.input st)]).
Proof.
  destruct (InputBox.is_submission ev) eqn:Hsub.
  - rewrite (handle_submission _ _ _ Hsub).
    destruct (handleSubmit_cases disabled st)
      as [(Hne & Hd & ->)|(_ & ->)]; [right|left]; done.
  - rewrite (handle_other_key _ _ _ Hsub). by left.
Qed.

Lemma requests_app (l l' : list (Effect E)) :
  requests (l ++ l') = requests l ++ requests l'.
Proof.
  induction l as [|e l IH]; simpl; [done|]. destruct e; simpl; by rewrite ?IH.
Qed.

Lemma send_settle_requests p now (o : Outcome QueryResponse E) st :
  requests (send_settle p now o st).2 = [].
Proof.
  destruct o as [response|error]; simpl; [|done].
  by destruct (dates_used response), (onDatesUsed p),
    (onInteractionComplete p).
Qed.

Lemma send_settle_messages p now (o : Outcome QueryResponse E) st :
  exists m, role m = assistant /\
    send_settle p now o st =
    (mkState (messages st ++ [m]) false, (send_settle p now o st).2).
Proof.
  destruct o as [response|error]; simpl; eexists; (split; [|reflexivity]);
    reflexivity.
Qed.

(** However the user, the network and the parent interleave, at most one
    request is awaiting its answer, the spinner is on exactly while one is,
    and while one is no event of the input box starts another. *)
Theorem one_request_at_a_time (p : Props) (now : Z)
    (evs : list (Event (E := E))) :
  let st := run p now evs in
  (length (awaiting st) <= 1)%nat /\
  (isLoading (chat st) = true <-> awaiting st ≠ []) /\
  (awaiting st ≠ [] ->
   forall ev t, trace (step st (Box ev t)) = trace st /\
                awaiting (step st (Box ev t)) = awaiting st).
Proof.
  intros st. subst st.
  assert (Hinv : (length (awaiting (run p now evs)) <= 1)%nat /\
                 (isLoading (chat (run p now evs)) = true <->
                  awaiting (run p now evs) ≠ [])).
  { induction evs as [|ev evs IH] using rev_ind.
    - simpl. split; [lia|]. split; [discriminate|done].
    - rewrite session_run_snoc. destruct IH as [Hlen Hload].
      set (st := run p now evs) in *.
      destruct ev as [value|ev t|o t|p' t]; simpl.
      + done.
      + destruct (InputBox.handle (isLoading (chat st)) ev (box st))
          as [box' sent] eqn:Hh.
        destruct (handle_cases (isLoading (chat st)) ev (box st))
          as [Hnil|(Hoff & _ & Hone)]; rewrite Hh in *; simpl in *; subst sent.
        * done.
        * simpl. assert (Hnone : awaiting st = []).
          { destruct (awaiting st) eqn:Ha; [done|].
            assert (isLoading (chat st) = true) by (by apply Hload).
            congruence. }
          rewrite Hnone. simpl. split; [lia|]. split; [done|]. by intros _.
      + destruct (awaiting st) as [|p0 rest] eqn:Ha; [by rewrite Ha|].
        destruct (send_settle_messages p0 t o (chat st)) as (m & _ & ->).
        simpl in *. assert (rest = []) as -> by (destruct rest; [done|simpl in Hlen; lia]).
        split; [simpl; lia|]. split; [discriminate|done].
      + destruct (focus_effect_logs_each_change_once p' t
                    (lastSourceIdRef st) (chat st)) as (_ & Hl & _).
        destruct (ChatFocus.focus_effect p' t (lastSourceIdRef st) (chat st))
          as [ref' chat'].
        simpl in *. by rewrite Hl. }
  destruct Hinv as [Hlen Hload]. split; [exact Hlen|]. split; [exact Hload|].
  intros Hbusy ev t. apply Hload in Hbusy. simpl. rewrite Hbusy.
  destruct (InputBox.handle true ev (box (run p now evs)))
    as [box' sent] eqn:Hh.
  destruct (handle_cases true ev (box (run p now evs)))
    as [Hnil|(Hoff & _)]; [|discriminate].
  rewrite Hh in Hnil. simpl in Hnil. subst sent. done.
Qed.

End ChatOverTime.

Section ChatHistory.

Import Api ChatInterface ChatSession.

Context {E : Type}.

Lemma step_messages (st : State (E := E)) ev :
  messages (chat st) `prefix_of` messages (chat (step st ev)).
Proof.
  destruct ev as [value|ev t|o t|p' t]; simpl.
  - done.
  - destruct (InputBox.handle (isLoading (chat st)) ev (box st))
      as [box' sent] eqn:Hh.
    destruct (handle_cases (isLoading (chat st)) ev (box st))
      as [Hnil|(_ & _ & Hone)]; rewrite Hh in *; simpl in *; subst sent;
      simpl; [done|].
    by eexists.
  - destruct (awaiting st) as [|p0 rest]; [done|].
    destruct (send_settle_messages p0 t o (chat st)) as (m & _ & ->).
    simpl. by eexists.
  - unfold ChatFocus.focus_effect.
    destruct (ChatFocus.strict_eq (lastSourceIdRef st) (selectedSourceId p'));
      simpl; [done|by eexists].
Qed.

Lemma run_messages_grow p now (evs more : list (Event (E := E))) :
  messages (chat (run p now evs)) `prefix_of`
    messages (chat (run p now (evs ++ more))).
Proof.
  induction more as [|ev more IH] using rev_ind.
  - by rewrite app_nil_r.
  - rewrite app_assoc, session_run_snoc.
    etrans; [exact IH|apply step_messages].
Qed.

(** The conversation only grows: whatever happens next, the messages shown
    so far stay where they are, and the greeting stays first. *)
Theorem history_is_append_only (p : Props) (now : Z)
    (evs evs' : list (Event (E := E))) :
  messages (chat (run p now evs)) `prefix_of`
    messages (chat (run p now (evs ++ evs'))) /\
  head (messages (chat (run p now evs))) = Some (initialMessage now).
Proof.
  split; [apply run_messages_grow|].
  destruct (run_messages_grow p now [] evs) as [k Hk].
  simpl app in Hk. rewrite Hk. reflexivity.
Qed.

End ChatHistory.

Section ChatRequests.

Import Api ChatInterface ChatSession.

Context {E : Type}.

(** In every state of the conversation the requests made so far and the
    messages of the user correspond one to one, in order: each request is a
    query for the text of its message, on behalf of user 1; and each of
    these texts is non-empty and already trimmed. *)
Theorem requests_match_user_messages (p : Props) (now : Z)
    (evs : list (Event (E := E))) :
  let st := run p now evs in
  Forall2 (fun req m =>
             req_path req = "/query" /\
             req_body req !! "question" = Some (VStr (content m)) /\
             req_body req !! "user_id" = Some (VNum 1))
    (requests (trace st)) (user_messages st) /\
  Forall (fun m => content m ≠ EmptyString /\ Js.trim (content m) = content m)
    (user_messages st).
Proof.
  intros st. subst st.
  induction evs as [|ev evs IH] using rev_ind.
  - split; constructor.
  - rewrite session_run_snoc. destruct IH as [Hreq Htrim].
    set (st := run p now evs) in *.
    destruct ev as [value|ev t|o t|p' t]; simpl.
    + done.
    + destruct (InputBox.handle (isLoading (chat st)) ev (box st))
        as [box' sent] eqn:Hh.
      destruct (handle_cases (isLoading (chat st)) ev (box st))
        as [Hnil|(_ & Hne & Hone)]; rewrite Hh in *; simpl in *; subst sent;
        simpl; [done|].
      unfold user_messages in *. simpl.
      rewrite requests_app, List.filter_app. simpl. split.
      * apply Forall2_app; [exact Hreq|]. constructor; [|constructor].
        simpl. split; [done|].
        split; [apply query_payload_question|apply query_payload_user_id].
      * apply Forall_app. split; [exact Htrim|].
        constructor; [|constructor]. simpl.
        split; [exact Hne|apply trim_idempotent].
    + destruct (awaiting st) as [|p0 rest]; [done|].
      pose proof (send_settle_requests p0 t o (chat st)) as Hnone.
      destruct (send_settle_messages p0 t o (chat st)) as (m & Hrole & Hsettle).
      rewrite Hsettle in *. unfold user_messages in *. simpl in *.
      rewrite requests_app, Hnone, app_nil_r, List.filter_app. simpl.
      rewrite Hrole. simpl. by rewrite app_nil_r.
    + unfold user_messages in *. unfold ChatFocus.focus_effect.
      destruct (ChatFocus.strict_eq (lastSourceIdRef st)
                  (selectedSourceId p')); simpl; [done|].
      rewrite List.filter_app. simpl. by rewrite app_nil_r.
Qed.

End ChatRequests.

(** ** The timeline *)

Section TimelineFacts.

Import Api Timeline.

Lemma date_effect_keeps st :
  timelines (date_effect st) = timelines st /\
  highlightedDates (date_effect st) = highlightedDates st.
Proof.
  unfold date_effect.
  destruct (truthy_date (selectedTimelineDate st)); simpl; [done|].
  destruct (timelines st) eqn:Hl; simpl; by rewrite ?Hl.
Qed.

Lemma date_effect_settles st :
  match timelines (date_effect st) with
  | [] => True
  | first :: _ =>
      truthy_date (selectedTimelineDate (date_effect st)) = true \/
      selectedTimelineDate (date_effect st) = Some (date first)
  end.
Proof.
  unfold date_effect.
  destruct (truthy_date (selectedTimelineDate st)) eqn:Ht; simpl.
  - destruct (timelines st); [done|by left].
  - destruct (timelines st) eqn:Hl; simpl; [by rewrite Hl|by right].
Qed.

(** Once a day is selected, only a click on a day changes the selection:
    reloads of the timeline and new highlights keep it, also when the
    reloaded list no longer has that day; and in every state the app
    reaches with a non-empty timeline some day is selected: a day chosen
    before, or the first of the list. *)
Theorem selected_date_is_sticky :
  (forall st ev,
     truthy_date (selectedTimelineDate st) = true ->
     (forall d, ev ≠ DateClick d) ->
     selectedTimelineDate (step st ev) = selectedTimelineDate st) /\
  (forall st first rest,
     reachable st -> timelines st = first :: rest ->
     truthy_date (selectedTimelineDate st) = true \/
     selectedTimelineDate st = Some (date first)).
Proof.
  split.
  - intros st ev Ht Hev. unfold step, date_effect.
    destruct ev as [l| |dates|d]; simpl; rewrite ?Ht; simpl; try done.
    by destruct (Hev d).
  - intros st first rest [evs <-] Hl.
    destruct evs as [|ev evs _] using rev_ind; [discriminate|].
    unfold run in *. rewrite fold_left_app in *. simpl in *.
    unfold step in *.
    pose proof (date_effect_settles
                  (apply_event ev (fold_left step evs init))) as Hs.
    unfold step in Hs. by rewrite Hl in Hs.
Qed.

(** An instance: the first day is selected by default and stays selected
    when the list is reloaded without it. *)
Lemma selected_date_is_sticky_witness :
  let monday := mkDailyTimeline "2024-01-08" None 2 in
  let tuesday := mkDailyTimeline "2024-01-09" (Some "Sales review") 3 in
  let st := run [TimelinesLoaded [monday]] in
  selectedTimelineDate st = Some "2024-01-08" /\
  selectedTimelineDate (step st (TimelinesLoaded [tuesday])) =
    Some "2024-01-08".
Proof.
  intros monday tuesday st.
  destruct selected_date_is_sticky as [Hkeep Hdefault].
  assert (Hst : selectedTimelineDate st = Some "2024-01-08").
  { destruct (Hdefault st monday []) as [Ht|Hs];
      [by eexists|reflexivity|reflexivity|exact Hs]. }
  split; [exact Hst|].
  rewrite Hkeep; [exact Hst|by rewrite Hst|discriminate].
Defined.

Lemma isHighlighted_spec st t :
  isHighlighted st t = true <->
  date t ∈ highlightedDates st \/ selectedTimelineDate st = Some (date t).
Proof.
  unfold isHighlighted. rewrite orb_true_iff, includes_spec.
  destruct (selectedTimelineDate st) as [d|].
  - rewrite String.eqb_eq. split; (intros [?|?]; [by left|right]); congruence.
  - split; (intros [?|?]; [by left|discriminate]).
Qed.

Lemma step_keeps_highlights st ev :
  (forall dates, ev ≠ DatesUsed dates) ->
  highlightedDates (step st ev) = highlightedDates st.
Proof.
  intros Hev. unfold step.
  destruct (date_effect_keeps (apply_event ev st)) as [_ ->].
  destruct ev as [l| |dates|d]; simpl; try done. by destruct (Hev dates).
Qed.

Lemma step_keeps_timelines st ev :
  (forall l, ev ≠ TimelinesLoaded l) ->
  timelines (step st ev) = timelines st.
Proof.
  intros Hev. unfold step.
  destruct (date_effect_keeps (apply_event ev st)) as [-> _].
  destruct ev as [l| |dates|d]; simpl; try done. by destruct (Hev l).
Qed.

(** What a question does to the sidebar, once the callbacks have run and
    the reload they start is settled. The highlighted dates are exactly the
    answer's dates when the response carries them (they replace the old
    ones); a rejected request, and an answer without dates, leave the
    highlights as they were. The list of days is replaced by the reloaded
    one when the question was answered and the reload resolved; a rejected
    question starts no reload and leaves the list alone. A row is
    highlighted when its date is among the highlighted dates or is the
    selected day. *)
Theorem highlights_follow_the_answer {E R} (p : ChatInterface.Props)
    (t_sent t_back : Z)
    (api : Request -> Outcome ChatInterface.QueryResponse E)
    (reload : Outcome (list DailyTimeline) R)
    (userMessage : string) (chat : ChatInterface.State) (tl : State) :
  let req := Api.query userMessage 1 (ChatInterface.selectedSourceId p) in
  let effs :=
    (ChatInterface.handleSendMessage p t_sent t_back api userMessage chat).2 in
  let tl' := after_chat reload tl effs in
  highlightedDates tl' =
    match api req with
    | Resolved response =>
        match ChatInterface.dates_used response with
        | Some dates =>
            if ChatInterface.onDatesUsed p then dates else highlightedDates tl
        | None => highlightedDates tl
        end
    | Rejected _ => highlightedDates tl
    end /\
  timelines tl' =
    match api req, reload with
    | Resolved _, Resolved l =>
        if ChatInterface.onInteractionComplete p then l else timelines tl
    | _, _ => timelines tl
    end /\
  (forall t, isHighlighted tl' t = true <->
     date t ∈ highlightedDates tl' \/
     selectedTimelineDate tl' = Some (date t)).
Proof.
  intros req effs tl'. split; [|split; [|intros t; apply isHighlighted_spec]].
  - subst tl' effs req. unfold ChatInterface.handleSendMessage,
      ChatInterface.send_begin, ChatInterface.send_settle.
    destruct (api _) as [response|error]; simpl; [|done].
    destruct (ChatInterface.dates_used response) as [dates|],
      (ChatInterface.onDatesUsed p),
      (ChatInterface.onInteractionComplete p), reload as [l|why]; simpl;
      rewrite ?step_keeps_highlights by discriminate; try done;
      unfold step; by destruct (date_effect_keeps
        (apply_event (DatesUsed dates) tl)) as [_ ->].
  - subst tl' effs req. unfold ChatInterface.handleSendMessage,
      ChatInterface.send_begin, ChatInterface.send_settle.
    destruct (api _) as [response|error]; simpl; [|by destruct reload].
    destruct (ChatInterface.dates_used response) as [dates|],
      (ChatInterface.onDatesUsed p),
      (ChatInterface.onInteractionComplete p), reload as [l|why]; simpl;
      rewrite ?(step_keeps_timelines _ TimelinesFailed) by discriminate;
      rewrite ?(step_keeps_timelines _ (DatesUsed _)) by discriminate;
      try done;
      unfold step;
      match goal with
      | |- timelines (date_effect ?x) = _ =>
          by destruct (date_effect_keeps x) as [-> _]
      end.
Qed.

(** An instance: an answer with one date, and a reload that brings a new
    day. *)
Lemma highlights_follow_the_answer_witness :
  let monday := mkDailyTimeline "2024-01-08" None 2 in
  let tuesday := mkDailyTimeline "2024-01-09" (Some "Sales review") 3 in
  let p := ChatInterface.mkProps true None None true in
  let api := fun _ : Request =>
    Resolved (E := unit)
      (ChatInterface.mkQueryResponse "Q4 sales were up." (Some ["2024-01-09"])) in
  let reload := Resolved (E := unit) [monday; tuesday] in
  let tl := run [TimelinesLoaded [monday]] in
  let tl' := after_chat reload tl
    (ChatInterface.handleSendMessage p 0 1 api "sales?"
       (ChatInterface.mkState [] false)).2 in
  highlightedDates tl' = ["2024-01-09"] /\
  timelines tl' = [monday; tuesday].
Proof.
  intros monday tuesday p api reload tl tl'.
  destruct (highlights_follow_the_answer p 0 1 api reload "sales?"
              (ChatInterface.mkState [] false) tl) as (Hh & Ht & _).
  split; [exact Hh|exact Ht].
Defined.

End TimelineFacts.
